(** * wfmserver control plane: the SCPI server thread

    A shallow embedding of [src/wfmserver/ScpiServerThread.cpp]: the line
    parser [ParseScpiLine], the command loop of [ScpiServerThread] and the
    trigger routines [Start] and [Stop], followed by the properties of the
    control plane that are stated about them.

    Conventions.
    - [size_t] and [int64_t] values are integers of [Z]; every conversion
      between C++ types is written out ([to_size_t], [to_int64], [to_int32]).
    - [double] is the binary64 type of the standard library ([float]).
    - [std::map<size_t,bool>] is a [gmap Z bool]; [operator[]] creates a
      missing entry with value [false] ([map_subscript]).
    - An uncaught C++ exception and an operation without defined behaviour
      end the process: a command returns [Fault] there.
    - Calls to the Digilent SDK, log lines and replies are recorded, in order,
      in the output trace of the world; the answers of the SDK come from an
      oracle that sees the whole trace so far. *)

From Stdlib Require Import ZArith String Ascii List Bool Lia Floats.
From stdpp Require Import base option gmap.
Import ListNotations.

Local Open Scope string_scope.
Local Open Scope Z_scope.

(** ** Machine integers *)

Module Int.

Definition to_size_t (z : Z) : Z := z mod 2 ^ 64.

Definition to_int64 (z : Z) : Z := (z + 2 ^ 63) mod 2 ^ 64 - 2 ^ 63.

Definition to_int32 (z : Z) : Z := (z + 2 ^ 31) mod 2 ^ 32 - 2 ^ 31.

Definition INT_MIN : Z := - 2 ^ 31.
Definition INT_MAX : Z := 2 ^ 31 - 1.
Definition INT64_MIN : Z := - 2 ^ 63.
Definition INT64_MAX : Z := 2 ^ 63 - 1.
Definition ULLONG_MAX : Z := 2 ^ 64 - 1.

Definition in_int64 (z : Z) : Prop := INT64_MIN <= z <= INT64_MAX.

(** A [char] of the x86-64 Linux ABI is signed. *)
Definition char_value (c : ascii) : Z :=
  let n := Z.of_N (N_of_ascii c) in
  if n <? 128 then n else n - 256.

End Int.

(** ** Strings *)

Module Str.

Definition is_empty (s : string) : bool :=
  match s with EmptyString => true | String _ _ => false end.

(** [s += c] *)
Definition push_back (s : string) (c : ascii) : string :=
  String.append s (String c EmptyString).

(** [s[i]]: the character at [i], and the terminating NUL at [i = size]. *)
Fixpoint at_ (s : string) (i : nat) : ascii :=
  match s, i with
  | EmptyString, _ => Ascii.zero
  | String c _, O => c
  | String _ r, S j => at_ r j
  end.

(** [s.c_str() + 1] for a string that is not empty (the empty string's
    [c_str() + 1] points past the NUL and is never formed by the caller). *)
Definition tail (s : string) : string :=
  match s with EmptyString => EmptyString | String _ r => r end.

Definition isspace (c : ascii) : bool :=
  let n := N_of_ascii c in
  (N.eqb n 32 || (N.leb 9 n && N.leb n 13))%bool.

Definition isdigit (c : ascii) : bool :=
  let n := N_of_ascii c in (N.leb 48 n && N.leb n 57)%bool.

Definition toupper (c : ascii) : ascii :=
  let n := N_of_ascii c in
  if (N.leb 97 n && N.leb n 122)%bool then ascii_of_N (n - 32) else c.

Fixpoint contains (c : ascii) (s : string) : bool :=
  match s with
  | EmptyString => false
  | String d r => (Ascii.eqb d c || contains c r)%bool
  end.

Fixpoint all (p : ascii -> bool) (s : string) : bool :=
  match s with
  | EmptyString => true
  | String d r => (p d && all p r)%bool
  end.

End Str.

(** ** [ParseScpiLine] *)

(** The four output parameters of the parser. *)
Record scpi_line := {
  subject : string;
  cmd : string;
  query : bool;
  args : list string
}.

(** The parser's variables inside its loop. *)
Record parse_state := {
  p_subject : string;
  p_cmd : string;
  p_query : bool;
  p_args : list string;
  p_tmp : string;
  p_reading_cmd : bool
}.

(** "Reset fields" and the two locals. *)
Definition parse_init : parse_state :=
  {| p_subject := ""; p_cmd := ""; p_query := false; p_args := [];
     p_tmp := ""; p_reading_cmd := true |}.

(** One iteration of the loop over [line[i]]. *)
Definition parse_step (st : parse_state) (c : ascii) : parse_state :=
  if (Ascii.eqb c ":" && Str.is_empty (p_subject st))%bool then
    {| p_subject := p_tmp st; p_cmd := p_cmd st; p_query := p_query st;
       p_args := p_args st; p_tmp := ""; p_reading_cmd := p_reading_cmd st |}
  else if Ascii.eqb c "?" then
    {| p_subject := p_subject st; p_cmd := p_cmd st; p_query := true;
       p_args := p_args st; p_tmp := p_tmp st;
       p_reading_cmd := p_reading_cmd st |}
  else if (negb (Str.isspace c && Str.is_empty (p_cmd st))
           && negb (Ascii.eqb c ","))%bool then
    {| p_subject := p_subject st; p_cmd := p_cmd st; p_query := p_query st;
       p_args := p_args st; p_tmp := Str.push_back (p_tmp st) c;
       p_reading_cmd := p_reading_cmd st |}
  else if Str.is_empty (p_tmp st) then st
  else if p_reading_cmd st then
    {| p_subject := p_subject st; p_cmd := p_tmp st; p_query := p_query st;
       p_args := p_args st; p_tmp := ""; p_reading_cmd := false |}
  else
    {| p_subject := p_subject st; p_cmd := p_cmd st; p_query := p_query st;
       p_args := p_args st ++ [p_tmp st]; p_tmp := "";
       p_reading_cmd := false |}.

Fixpoint parse_loop (line : string) (st : parse_state) : parse_state :=
  match line with
  | EmptyString => st
  | String c rest => parse_loop rest (parse_step st c)
  end.

(** "Stuff left over at the end? Figure out which field it belongs in" *)
Definition parse_finish (st : parse_state) : scpi_line :=
  if negb (Str.is_empty (p_tmp st)) then
    if negb (Str.is_empty (p_cmd st)) then
      {| subject := p_subject st; cmd := p_cmd st; query := p_query st;
         args := p_args st ++ [p_tmp st] |}
    else
      {| subject := p_subject st; cmd := p_tmp st; query := p_query st;
         args := p_args st |}
  else
    {| subject := p_subject st; cmd := p_cmd st; query := p_query st;
       args := p_args st |}.

Definition ParseScpiLine (line : string) : scpi_line :=
  parse_finish (parse_loop line parse_init).

(** ** Faults *)

(** What ends the process in the middle of a command: an exception of the
    standard library that nothing catches, or an operation the language
    leaves undefined. *)
Inductive fault :=
| std_invalid_argument
| std_out_of_range
| divide_by_zero
| signed_overflow.

Inductive result (A : Type) :=
| Done (a : A)
| Fault (f : fault).

Arguments Done {A} a.
Arguments Fault {A} f.

(** ** Numeric conversions of the standard library *)

Module Conv.

Fixpoint skip_space (s : string) : string :=
  match s with
  | String c r => if Str.isspace c then skip_space r else s
  | EmptyString => s
  end.

(** The value of the longest prefix of decimal digits; [acc] is [None] until
    a digit has been read. *)
Fixpoint digits (s : string) (acc : option Z) : option Z :=
  match s with
  | String c r =>
      if Str.isdigit c
      then digits r (Some (10 * default 0 acc + (Z.of_N (N_of_ascii c) - 48)))
      else acc
  | EmptyString => acc
  end.

(** Sign and magnitude of the number [strtol] and [strtoull] read in base
    10: white space, an optional sign, digits. [None]: no conversion. *)
Definition number_prefix (s : string) : option (bool * Z) :=
  let s1 := skip_space s in
  let '(neg, s2) :=
    match s1 with
    | String "-"%char r => (true, r)
    | String "+"%char r => (false, r)
    | _ => (false, s1)
    end in
  match digits s2 None with
  | None => None
  | Some m => Some (neg, m)
  end.

(** [std::stoi] *)
Definition stoi (s : string) : result Z :=
  match number_prefix s with
  | None => Fault std_invalid_argument
  | Some (neg, m) =>
      let v := if neg then - m else m in
      if (Int.INT_MIN <=? v) && (v <=? Int.INT_MAX) then Done v
      else Fault std_out_of_range
  end.

(** [std::stoull]: a minus sign negates the value in [unsigned long long]. *)
Definition stoull (s : string) : result Z :=
  match number_prefix s with
  | None => Fault std_invalid_argument
  | Some (neg, m) =>
      if m <=? Int.ULLONG_MAX
      then Done (if neg then Int.to_size_t (- m) else m)
      else Fault std_out_of_range
  end.

End Conv.

(** ** Doubles *)

Module Dbl.

(** Conversion of an [int64_t] to [double] (round to nearest, ties to even). *)
Definition of_int64 (z : Z) : float :=
  if z =? Int.INT64_MIN then PrimFloat.opp 0x1p+63%float
  else if z <? 0 then PrimFloat.opp (PrimFloat.of_uint63 (Uint63.of_Z (- z)))
  else PrimFloat.of_uint63 (Uint63.of_Z z).

(** The integer part of a finite double, rounded toward zero. *)
Definition trunc (x : float) : option Z :=
  match Prim2SF x with
  | S754_zero _ => Some 0
  | S754_finite s m e =>
      let a := if 0 <=? e then Z.pos m * 2 ^ e else Z.pos m / 2 ^ (- e) in
      Some (if s then - a else a)
  | S754_infinity _ => None
  | S754_nan => None
  end.

(** Conversion of a [double] to [int64_t] as the x86-64 build performs it
    (the instruction [cvttsd2si]): the truncated value when that is an
    [int64_t], and [INT64_MIN] for every other operand, the infinities and
    NaN included. The language leaves the second case undefined. *)
Definition to_int64 (x : float) : Z :=
  match trunc x with
  | Some z =>
      if (Int.INT64_MIN <=? z) && (z <=? Int.INT64_MAX) then z
      else Int.INT64_MIN
  | None => Int.INT64_MIN
  end.

End Dbl.

(** Modelled from the spec: the macro [FS_PER_SECOND] of the instrument
    library, which this file uses and does not define ("each value converted
    to an interval in femtoseconds ([1e15 / frequency])"). *)
Definition FS_PER_SECOND : float := 1e15%float.

(** Modelled from the spec: the macro [SECONDS_PER_FS] of the instrument
    library, the inverse of [FS_PER_SECOND]; the literal [1e-15] as a
    binary64 value. *)
Definition SECONDS_PER_FS : float := 0x1.203af9ee75616p-50%float.

(** ** The Digilent SDK and the output trace *)

Inductive DwfTriggerSlope :=
| DwfTriggerSlopeRise
| DwfTriggerSlopeFall
| DwfTriggerSlopeEither.

(** The SDK calls of the control plane, with the arguments the source passes
    (the device handle [g_hScope] is left out). *)
Inductive sdk_call :=
| FDwfAnalogInReset
| FDwfAnalogInFrequencyInfo
| FDwfAnalogInChannelEnableSet (channelId : Z) (enable : bool)
| FDwfAnalogInChannelOffsetSet (channelId : Z) (v : float)
| FDwfAnalogInChannelAttenuationSet (channelId : Z) (v : float)
| FDwfAnalogInChannelRangeSet (channelId : Z) (v : float)
| FDwfAnalogInFrequencySet (rate : Z)
| FDwfAnalogInBufferSizeSet (depth : Z)
| FDwfAnalogInTriggerTypeSet_trigtypeEdge
| FDwfAnalogInTriggerConditionSet (condition : DwfTriggerSlope)
| FDwfAnalogInTriggerLevelSet (v : float)
| FDwfAnalogInTriggerSourceSet_trigsrcDetectorAnalogIn
| FDwfAnalogInTriggerAutoTimeoutSet (t : Z)
| FDwfAnalogInTriggerChannelSet (channel : Z)
| FDwfAnalogInTriggerPositionSet (sec : float)
| FDwfAnalogInTriggerPositionGet
| FDwfAnalogInAcquisitionModeSet_acqmodeSingle
| FDwfAnalogInConfigure (reconfigure : bool) (start : bool).

(** What a call leaves behind: its return value and the contents of its
    output parameters after the call (one for [FDwfAnalogInTriggerPositionGet],
    two for [FDwfAnalogInFrequencyInfo]). When a call fails without writing
    its output parameter, [sdk_out1] is whatever the variable holds. *)
Record sdk_ret := {
  sdk_ok : bool;
  sdk_out1 : float;
  sdk_out2 : float
}.

Inductive log_level :=
  LogError | LogWarning | LogVerbose | LogDebug | LogTrace.

(** Replies to queries. The identification strings are globals of another
    file; the text of the [RATES] reply is formatted from the two frequencies
    the device reports, by a floating-point loop that touches no global. *)
Inductive reply :=
| ReplyIdn
| ReplyChans (n : Z)
| ReplyRates (minFreq maxFreq : float)
| ReplyDepths (text : string).

Inductive event :=
| EvSdk (c : sdk_call) (r : sdk_ret)
| EvLog (l : log_level) (msg : string)
| EvSend (r : reply).

(** ** Environment *)

(** What the file takes from the rest of the program and from its libraries:
    the channel count [g_numAnalogInChannels] (a [size_t] defined in another
    file), [std::stod], and the device behind the SDK, which answers a call
    knowing everything that happened before. *)
Class Env := {
  g_numAnalogInChannels : Z;
  stod : string -> result float;
  sdk : list event -> sdk_call -> sdk_ret
}.

(** ** Global state *)

Record Globals := {
  g_channelOn : gmap Z bool;
  g_memDepth : Z;
  g_sampleInterval : Z;
  g_channelOnDuringArm : gmap Z bool;
  g_sampleIntervalDuringArm : Z;
  g_captureMemDepth : Z;
  g_triggerArmed : bool;
  g_triggerOneShot : bool;
  g_memDepthChanged : bool;
  g_triggerVoltage : float;
  g_triggerChannel : Z;
  g_triggerSampleIndex : Z;
  g_triggerDelay : Z;
  g_triggerDeltaSec : float
}.

(** The globals at process start; those without an initialiser have static
    storage and start at zero. *)
Definition initial_globals : Globals := {|
  g_channelOn := ∅;
  g_memDepth := 1000000;
  g_sampleInterval := 0;
  g_channelOnDuringArm := ∅;
  g_sampleIntervalDuringArm := 0;
  g_captureMemDepth := 0;
  g_triggerArmed := false;
  g_triggerOneShot := false;
  g_memDepthChanged := false;
  g_triggerVoltage := 0%float;
  g_triggerChannel := 0;
  g_triggerSampleIndex := 0;
  g_triggerDelay := 0;
  g_triggerDeltaSec := 0%float
|}.

(** Assignment to one global. *)
Definition set_g_channelOn (v : gmap Z bool) (g : Globals) : Globals :=
  {| g_channelOn := v; g_memDepth := g_memDepth g;
     g_sampleInterval := g_sampleInterval g;
     g_channelOnDuringArm := g_channelOnDuringArm g;
     g_sampleIntervalDuringArm := g_sampleIntervalDuringArm g;
     g_captureMemDepth := g_captureMemDepth g;
     g_triggerArmed := g_triggerArmed g;
     g_triggerOneShot := g_triggerOneShot g;
     g_memDepthChanged := g_memDepthChanged g;
     g_triggerVoltage := g_triggerVoltage g;
     g_triggerChannel := g_triggerChannel g;
     g_triggerSampleIndex := g_triggerSampleIndex g;
     g_triggerDelay := g_triggerDelay g;
     g_triggerDeltaSec := g_triggerDeltaSec g |}.

Definition set_g_memDepth (v : Z) (g : Globals) : Globals :=
  {| g_channelOn := g_channelOn g; g_memDepth := v;
     g_sampleInterval := g_sampleInterval g;
     g_channelOnDuringArm := g_channelOnDuringArm g;
     g_sampleIntervalDuringArm := g_sampleIntervalDuringArm g;
     g_captureMemDepth := g_captureMemDepth g;
     g_triggerArmed := g_triggerArmed g;
     g_triggerOneShot := g_triggerOneShot g;
     g_memDepthChanged := g_memDepthChanged g;
     g_triggerVoltage := g_triggerVoltage g;
     g_triggerChannel := g_triggerChannel g;
     g_triggerSampleIndex := g_triggerSampleIndex g;
     g_triggerDelay := g_triggerDelay g;
     g_triggerDeltaSec := g_triggerDeltaSec g |}.

Definition set_g_sampleInterval (v : Z) (g : Globals) : Globals :=
  {| g_channelOn := g_channelOn g; g_memDepth := g_memDepth g;
     g_sampleInterval := v; g_channelOnDuringArm := g_channelOnDuringArm g;
     g_sampleIntervalDuringArm := g_sampleIntervalDuringArm g;
     g_captureMemDepth := g_captureMemDepth g;
     g_triggerArmed := g_triggerArmed g;
     g_triggerOneShot := g_triggerOneShot g;
     g_memDepthChanged := g_memDepthChanged g;
     g_triggerVoltage := g_triggerVoltage g;
     g_triggerChannel := g_triggerChannel g;
     g_triggerSampleIndex := g_triggerSampleIndex g;
     g_triggerDelay := g_triggerDelay g;
     g_triggerDeltaSec := g_triggerDeltaSec g |}.

Definition set_g_channelOnDuringArm (v : gmap Z bool) (g : Globals) : Globals :=
  {| g_channelOn := g_channelOn g; g_memDepth := g_memDepth g;
     g_sampleInterval := g_sampleInterval g; g_channelOnDuringArm := v;
     g_sampleIntervalDuringArm := g_sampleIntervalDuringArm g;
     g_captureMemDepth := g_captureMemDepth g;
     g_triggerArmed := g_triggerArmed g;
     g_triggerOneShot := g_triggerOneShot g;
     g_memDepthChanged := g_memDepthChanged g;
     g_triggerVoltage := g_triggerVoltage g;
     g_triggerChannel := g_triggerChannel g;
     g_triggerSampleIndex := g_triggerSampleIndex g;
     g_triggerDelay := g_triggerDelay g;
     g_triggerDeltaSec := g_triggerDeltaSec g |}.

Definition set_g_sampleIntervalDuringArm (v : Z) (g : Globals) : Globals :=
  {| g_channelOn := g_channelOn g; g_memDepth := g_memDepth g;
     g_sampleInterval := g_sampleInterval g;
     g_channelOnDuringArm := g_channelOnDuringArm g;
     g_sampleIntervalDuringArm := v;
     g_captureMemDepth := g_captureMemDepth g;
     g_triggerArmed := g_triggerArmed g;
     g_triggerOneShot := g_triggerOneShot g;
     g_memDepthChanged := g_memDepthChanged g;
     g_triggerVoltage := g_triggerVoltage g;
     g_triggerChannel := g_triggerChannel g;
     g_triggerSampleIndex := g_triggerSampleIndex g;
     g_triggerDelay := g_triggerDelay g;
     g_triggerDeltaSec := g_triggerDeltaSec g |}.

Definition set_g_captureMemDepth (v : Z) (g : Globals) : Globals :=
  {| g_channelOn := g_channelOn g; g_memDepth := g_memDepth g;
     g_sampleInterval := g_sampleInterval g;
     g_channelOnDuringArm := g_channelOnDuringArm g;
     g_sampleIntervalDuringArm := g_sampleIntervalDuringArm g;
     g_captureMemDepth := v; g_triggerArmed := g_triggerArmed g;
     g_triggerOneShot := g_triggerOneShot g;
     g_memDepthChanged := g_memDepthChanged g;
     g_triggerVoltage := g_triggerVoltage g;
     g_triggerChannel := g_triggerChannel g;
     g_triggerSampleIndex := g_triggerSampleIndex g;
     g_triggerDelay := g_triggerDelay g;
     g_triggerDeltaSec := g_triggerDeltaSec g |}.

Definition set_g_triggerArmed (v : bool) (g : Globals) : Globals :=
  {| g_channelOn := g_channelOn g; g_memDepth := g_memDepth g;
     g_sampleInterval := g_sampleInterval g;
     g_channelOnDuringArm := g_channelOnDuringArm g;
     g_sampleIntervalDuringArm := g_sampleIntervalDuringArm g;
     g_captureMemDepth := g_captureMemDepth g; g_triggerArmed := v;
     g_triggerOneShot := g_triggerOneShot g;
     g_memDepthChanged := g_memDepthChanged g;
     g_triggerVoltage := g_triggerVoltage g;
     g_triggerChannel := g_triggerChannel g;
     g_triggerSampleIndex := g_triggerSampleIndex g;
     g_triggerDelay := g_triggerDelay g;
     g_triggerDeltaSec := g_triggerDeltaSec g |}.

Definition set_g_triggerOneShot (v : bool) (g : Globals) : Globals :=
  {| g_channelOn := g_channelOn g; g_memDepth := g_memDepth g;
     g_sampleInterval := g_sampleInterval g;
     g_channelOnDuringArm := g_channelOnDuringArm g;
     g_sampleIntervalDuringArm := g_sampleIntervalDuringArm g;
     g_captureMemDepth := g_captureMemDepth g;
     g_triggerArmed := g_triggerArmed g; g_triggerOneShot := v;
     g_memDepthChanged := g_memDepthChanged g;
     g_triggerVoltage := g_triggerVoltage g;
     g_triggerChannel := g_triggerChannel g;
     g_triggerSampleIndex := g_triggerSampleIndex g;
     g_triggerDelay := g_triggerDelay g;
     g_triggerDeltaSec := g_triggerDeltaSec g |}.

Definition set_g_memDepthChanged (v : bool) (g : Globals) : Globals :=
  {| g_channelOn := g_channelOn g; g_memDepth := g_memDepth g;
     g_sampleInterval := g_sampleInterval g;
     g_channelOnDuringArm := g_channelOnDuringArm g;
     g_sampleIntervalDuringArm := g_sampleIntervalDuringArm g;
     g_captureMemDepth := g_captureMemDepth g;
     g_triggerArmed := g_triggerArmed g;
     g_triggerOneShot := g_triggerOneShot g; g_memDepthChanged := v;
     g_triggerVoltage := g_triggerVoltage g;
     g_triggerChannel := g_triggerChannel g;
     g_triggerSampleIndex := g_triggerSampleIndex g;
     g_triggerDelay := g_triggerDelay g;
     g_triggerDeltaSec := g_triggerDeltaSec g |}.

Definition set_g_triggerVoltage (v : float) (g : Globals) : Globals :=
  {| g_channelOn := g_channelOn g; g_memDepth := g_memDepth g;
     g_sampleInterval := g_sampleInterval g;
     g_channelOnDuringArm := g_channelOnDuringArm g;
     g_sampleIntervalDuringArm := g_sampleIntervalDuringArm g;
     g_captureMemDepth := g_captureMemDepth g;
     g_triggerArmed := g_triggerArmed g;
     g_triggerOneShot := g_triggerOneShot g;
     g_memDepthChanged := g_memDepthChanged g; g_triggerVoltage := v;
     g_triggerChannel := g_triggerChannel g;
     g_triggerSampleIndex := g_triggerSampleIndex g;
     g_triggerDelay := g_triggerDelay g;
     g_triggerDeltaSec := g_triggerDeltaSec g |}.

Definition set_g_triggerChannel (v : Z) (g : Globals) : Globals :=
  {| g_channelOn := g_channelOn g; g_memDepth := g_memDepth g;
     g_sampleInterval := g_sampleInterval g;
     g_channelOnDuringArm := g_channelOnDuringArm g;
     g_sampleIntervalDuringArm := g_sampleIntervalDuringArm g;
     g_captureMemDepth := g_captureMemDepth g;
     g_triggerArmed := g_triggerArmed g;
     g_triggerOneShot := g_triggerOneShot g;
     g_memDepthChanged := g_memDepthChanged g;
     g_triggerVoltage := g_triggerVoltage g; g_triggerChannel := v;
     g_triggerSampleIndex := g_triggerSampleIndex g;
     g_triggerDelay := g_triggerDelay g;
     g_triggerDeltaSec := g_triggerDeltaSec g |}.

Definition set_g_triggerSampleIndex (v : Z) (g : Globals) : Globals :=
  {| g_channelOn := g_channelOn g; g_memDepth := g_memDepth g;
     g_sampleInterval := g_sampleInterval g;
     g_channelOnDuringArm := g_channelOnDuringArm g;
     g_sampleIntervalDuringArm := g_sampleIntervalDuringArm g;
     g_captureMemDepth := g_captureMemDepth g;
     g_triggerArmed := g_triggerArmed g;
     g_triggerOneShot := g_triggerOneShot g;
     g_memDepthChanged := g_memDepthChanged g;
     g_triggerVoltage := g_triggerVoltage g;
     g_triggerChannel := g_triggerChannel g; g_triggerSampleIndex := v;
     g_triggerDelay := g_triggerDelay g;
     g_triggerDeltaSec := g_triggerDeltaSec g |}.

Definition set_g_triggerDelay (v : Z) (g : Globals) : Globals :=
  {| g_channelOn := g_channelOn g; g_memDepth := g_memDepth g;
     g_sampleInterval := g_sampleInterval g;
     g_channelOnDuringArm := g_channelOnDuringArm g;
     g_sampleIntervalDuringArm := g_sampleIntervalDuringArm g;
     g_captureMemDepth := g_captureMemDepth g;
     g_triggerArmed := g_triggerArmed g;
     g_triggerOneShot := g_triggerOneShot g;
     g_memDepthChanged := g_memDepthChanged g;
     g_triggerVoltage := g_triggerVoltage g;
     g_triggerChannel := g_triggerChannel g;
     g_triggerSampleIndex := g_triggerSampleIndex g; g_triggerDelay := v;
     g_triggerDeltaSec := g_triggerDeltaSec g |}.

Definition set_g_triggerDeltaSec (v : float) (g : Globals) : Globals :=
  {| g_channelOn := g_channelOn g; g_memDepth := g_memDepth g;
     g_sampleInterval := g_sampleInterval g;
     g_channelOnDuringArm := g_channelOnDuringArm g;
     g_sampleIntervalDuringArm := g_sampleIntervalDuringArm g;
     g_captureMemDepth := g_captureMemDepth g;
     g_triggerArmed := g_triggerArmed g;
     g_triggerOneShot := g_triggerOneShot g;
     g_memDepthChanged := g_memDepthChanged g;
     g_triggerVoltage := g_triggerVoltage g;
     g_triggerChannel := g_triggerChannel g;
     g_triggerSampleIndex := g_triggerSampleIndex g;
     g_triggerDelay := g_triggerDelay g; g_triggerDeltaSec := v |}.

(** ** The world and its monad *)

(** The globals and everything the thread has sent to the device, the log
    and the client so far, oldest first. *)
Record World := {
  mem : Globals;
  out : list event
}.

Definition initial_world : World := {| mem := initial_globals; out := [] |}.

Definition M (A : Type) : Type := World -> result (A * World).

Definition ret {A : Type} (a : A) : M A := fun w => Done (a, w).

Definition bind {A B : Type} (m : M A) (k : A -> M B) : M B :=
  fun w =>
    match m w with
    | Done (a, w') => k a w'
    | Fault f => Fault f
    end.

Notation "x <- m ;; k" := (bind m (fun x => k))
  (at level 20, m at level 99, k at level 200, only parsing).
Notation "m ;; k" := (bind m (fun _ => k))
  (at level 100, k at level 200, right associativity, only parsing).
Notation "a == b" := (String.eqb a b) (at level 70, no associativity).

Definition lift {A : Type} (r : result A) : M A :=
  fun w => match r with Done a => Done (a, w) | Fault f => Fault f end.

Definition get : M Globals := fun w => Done (mem w, w).

Definition modify (f : Globals -> Globals) : M unit :=
  fun w => Done (tt, {| mem := f (mem w); out := out w |}).

Definition emit (e : event) : M unit :=
  fun w => Done (tt, {| mem := mem w; out := out w ++ [e] |}).

Definition log (l : log_level) (msg : string) : M unit := emit (EvLog l msg).

Inductive loop_ctl := Continue | Break.

Section Server.

Context {E : Env}.

(** A call into the SDK: the device answers, the call is recorded. *)
Definition call (c : sdk_call) : M sdk_ret :=
  fun w =>
    let r := sdk (out w) c in
    Done (r, {| mem := mem w; out := out w ++ [EvSdk c r] |}).

(** [if(!F(...)) LogError("F failed\n");] *)
Definition check (c : sdk_call) (msg : string) : M unit :=
  r <- call c ;;
  if sdk_ok r then ret tt else log LogError msg.

(** ** [Start] and [Stop] *)

(** [a / b] on [int64_t]. *)
Definition int64_div (a b : Z) : result Z :=
  if b =? 0 then Fault divide_by_zero
  else if (a =? Int.INT64_MIN) && (b =? -1) then Fault signed_overflow
  else Done (Z.quot a b).

Definition Stop : M unit :=
  call (FDwfAnalogInConfigure true false) ;;
  modify (set_g_triggerArmed false).

(** The parameter [force] is not read by the body. *)
Definition Start (force : bool) : M unit :=
  (* Save configuration *)
  modify (fun g => set_g_captureMemDepth (g_memDepth g) g) ;;
  modify (fun g => set_g_channelOnDuringArm (g_channelOn g) g) ;;
  modify (fun g => set_g_sampleIntervalDuringArm (g_sampleInterval g) g) ;;
  (* Precalculate some stuff we need for trigger interpolation *)
  g <- get ;;
  q <- lift (int64_div (g_triggerDelay g) (g_sampleInterval g)) ;;
  modify (set_g_triggerSampleIndex (Int.to_size_t q)) ;;
  (* Set acquisition mode *)
  call FDwfAnalogInAcquisitionModeSet_acqmodeSingle ;;
  (* Start acquisition *)
  call (FDwfAnalogInConfigure true true) ;;
  modify (set_g_triggerArmed true).

(** "need to re-arm trigger to apply changes": [if(g_triggerArmed) Start();] *)
Definition rearm : M unit :=
  g <- get ;;
  if g_triggerArmed g then Start false else ret tt.

(** ** The channel map *)

(** [m[i]] read as an rvalue: a missing key is inserted with [false]. *)
Definition map_subscript (m : gmap Z bool) (i : Z) : bool * gmap Z bool :=
  match m !! i with
  | Some b => (b, m)
  | None => (false, <[i := false]> m)
  end.

(** The flag the program reads for channel [i]. *)
Definition channel_enabled (m : gmap Z bool) (i : Z) : bool :=
  fst (map_subscript m i).

(** "Make sure we've got something to capture": the loop over
    [i = first, first + 1, ...], [count] iterations at most, leaving at the
    first channel that is on. *)
Fixpoint any_channel_on (count : nat) (first : Z) (m : gmap Z bool)
  : bool * gmap Z bool :=
  match count with
  | O => (false, m)
  | S k =>
      let '(b, m') := map_subscript m first in
      if b then (true, m') else any_channel_on k (first + 1) m'
  end.

(** ** The command loop *)

(** "Extract channel ID from subject and clamp bounds" *)
Definition extract_channel_id (subject : string) : result Z :=
  if Ascii.eqb (Str.toupper (Str.at_ subject 0)) "C" then
    match Conv.stoi (Str.tail subject) with
    | Done n =>
        Done (Z.min (Int.to_size_t (Int.to_int32 (n - 1)))
                    g_numAnalogInChannels)
    | Fault f => Fault f
    end
  else Done 0.

Definition one_arg (args : list string) : bool := Nat.eqb (length args) 1.

(** [args[0]] *)
Definition arg0 (args : list string) : string := nth 0 args "".

Definition handle_query (line cmd : string) : M unit :=
  if cmd == "*IDN" then emit (EvSend ReplyIdn)
  else if cmd == "CHANS" then emit (EvSend (ReplyChans g_numAnalogInChannels))
  else if cmd == "RATES" then
    r <- call FDwfAnalogInFrequencyInfo ;;
    emit (EvSend (ReplyRates (sdk_out1 r) (sdk_out2 r)))
  else if cmd == "DEPTHS" then emit (EvSend (ReplyDepths "65536,"))
  else log LogDebug (String.append "Unrecognized query received: " line).

(** [cmd == "ON"] *)
Definition handle_ON (channelId : Z) : M unit :=
  modify (fun g => set_g_channelOn (<[channelId := true]> (g_channelOn g)) g) ;;
  check (FDwfAnalogInChannelEnableSet channelId true)
        "FDwfAnalogInChannelEnableSet failed" ;;
  (* We need to allocate new buffers for this channel *)
  modify (set_g_memDepthChanged true) ;;
  rearm.

(** [cmd == "OFF"]: the map entry is assigned [true], the device is told
    [false]. *)
Definition handle_OFF (channelId : Z) : M unit :=
  modify (fun g => set_g_channelOn (<[channelId := true]> (g_channelOn g)) g) ;;
  check (FDwfAnalogInChannelEnableSet channelId false)
        "FDwfAnalogInChannelEnableSet failed" ;;
  (* We need to allocate new buffers for this channel *)
  modify (set_g_memDepthChanged true) ;;
  rearm.

Definition handle_OFFS (channelId : Z) (args : list string) : M unit :=
  requestedOffset <- lift (stod (arg0 args)) ;;
  check (FDwfAnalogInChannelOffsetSet channelId requestedOffset)
        "FDwfAnalogInChannelOffsetSet failed" ;;
  rearm.

Definition handle_ATTEN (channelId : Z) (args : list string) : M unit :=
  requestedAtten <- lift (stod (arg0 args)) ;;
  check (FDwfAnalogInChannelAttenuationSet channelId requestedAtten)
        "FDwfAnalogInChannelAttenuationSet failed" ;;
  rearm.

Definition handle_RANGE (channelId : Z) (args : list string) : M unit :=
  range <- lift (stod (arg0 args)) ;;
  check (FDwfAnalogInChannelRangeSet channelId range)
        "FDwfAnalogInChannelRangeSet failed" ;;
  rearm.

(** [g_sampleInterval = FS_PER_SECOND / rate]: [rate] becomes a double, the
    quotient is a double, and the assignment converts it to [int64_t]. For
    the rate 0 the quotient is infinite and [INT64_MIN] is stored. *)
Definition sample_interval_of_rate (rate : Z) : Z :=
  Dbl.to_int64 (PrimFloat.div FS_PER_SECOND (Dbl.of_int64 rate)).

Definition handle_RATE (args : list string) : M unit :=
  r <- lift (Conv.stoull (arg0 args)) ;;
  let rate := Int.to_int64 r in
  check (FDwfAnalogInFrequencySet rate) "FDwfAnalogInFrequencySet failed" ;;
  modify (set_g_sampleInterval (sample_interval_of_rate rate)) ;;
  rearm.

Definition handle_DEPTH (args : list string) : M unit :=
  depth <- lift (Conv.stoull (arg0 args)) ;;
  modify (set_g_memDepth depth) ;;
  check (FDwfAnalogInBufferSizeSet depth) "FDwfAnalogInBufferSizeSet failed" ;;
  modify (set_g_memDepthChanged true) ;;
  rearm.

(** [(cmd == "START") || (cmd == "SINGLE")]; both early exits are the
    [continue] statements of the source. *)
Definition handle_START (cmd : string) : M unit :=
  g <- get ;;
  if g_triggerArmed g then
    log LogVerbose "Ignoring START command because trigger is already armed"
  else
    (* Make sure we've got something to capture *)
    let '(anyChannels, m) :=
      any_channel_on (Z.to_nat g_numAnalogInChannels) 0 (g_channelOn g) in
    modify (set_g_channelOn m) ;;
    if negb anyChannels then
      log LogVerbose "Ignoring START command because no channels are active"
    else
      (* Start the capture *)
      Start false ;;
      modify (set_g_triggerOneShot (cmd == "SINGLE")).

Definition handle_FORCE : M unit := Start true.

Definition handle_STOP : M unit := Stop.

Definition handle_TRIG_MODE (args : list string) : M unit :=
  if arg0 args == "EDGE" then
    check FDwfAnalogInTriggerTypeSet_trigtypeEdge
          "FDwfAnalogInTriggerTypeSet failed"
  else
    log LogWarning (String.append "Unknown trigger mode " (arg0 args)).

Definition handle_TRIG_EDGE_DIR (args : list string) : M unit :=
  let condition :=
    if arg0 args == "RISING" then DwfTriggerSlopeRise
    else if arg0 args == "FALLING" then DwfTriggerSlopeFall
    else DwfTriggerSlopeEither in
  check (FDwfAnalogInTriggerConditionSet condition)
        "FDwfAnalogInTriggerConditionSet failed" ;;
  rearm.

Definition handle_TRIG_LEV (args : list string) : M unit :=
  v <- lift (stod (arg0 args)) ;;
  modify (set_g_triggerVoltage v) ;;
  check (FDwfAnalogInTriggerLevelSet v) "FDwfAnalogInTriggerLevelSet failed" ;;
  rearm.

(** [g_triggerChannel = args[0][1] - '1'] *)
Definition trigger_channel_of_arg (a : string) : Z :=
  Int.to_size_t (Int.char_value (Str.at_ a 1) - Int.char_value "1"%char).

Definition handle_TRIG_SOU (args : list string) : M unit :=
  check FDwfAnalogInTriggerSourceSet_trigsrcDetectorAnalogIn
        "FDwfAnalogInTriggerSourceSet failed" ;;
  check (FDwfAnalogInTriggerAutoTimeoutSet 0)
        "FDwfAnalogInTriggerAutoTimeoutSet failed" ;;
  let channel := trigger_channel_of_arg (arg0 args) in
  modify (set_g_triggerChannel channel) ;;
  check (FDwfAnalogInTriggerChannelSet channel)
        "FDwfAnalogInTriggerChannelSet failed" ;;
  rearm.

(** The three [int64_t] lines of the [TRIG:DELAY] handler:
    [offset_samples = g_memDepth/2], [offset_fs = offset_samples *
    g_sampleInterval], [position_fs = offset_fs - g_triggerDelay]. The
    product and the difference are taken modulo 2^64, as the machine does. *)
Definition trigger_position_fs (memDepth sampleInterval triggerDelay : Z) : Z :=
  let offset_samples := Int.to_int64 (memDepth / 2) in
  let offset_fs := Int.to_int64 (offset_samples * sampleInterval) in
  Int.to_int64 (offset_fs - triggerDelay).

Definition handle_TRIG_DELAY (args : list string) : M unit :=
  d <- lift (Conv.stoull (arg0 args)) ;;
  modify (set_g_triggerDelay (Int.to_int64 d)) ;;
  (* For single trigger mode, trigger position is WRT midpoint of buffer
     but the TRIG:DELAY command measures WRT start of buffer. *)
  g <- get ;;
  let position_fs :=
    trigger_position_fs (g_memDepth g) (g_sampleInterval g)
                        (g_triggerDelay g) in
  (* After setting trigger time, see what we actually got. *)
  let position_sec_requested :=
    PrimFloat.mul (Dbl.of_int64 position_fs) SECONDS_PER_FS in
  check (FDwfAnalogInTriggerPositionSet position_sec_requested)
        "FDwfAnalogInTriggerPositionSet failed" ;;
  r <- call FDwfAnalogInTriggerPositionGet ;;
  (if sdk_ok r then ret tt
   else log LogError "FDwfAnalogInTriggerPositionGet failed") ;;
  let position_sec_actual := sdk_out1 r in
  modify (set_g_triggerDeltaSec
            (PrimFloat.sub position_sec_actual position_sec_requested)) ;;
  rearm.

Definition log_args (args : list string) : M unit :=
  fold_right (fun arg k => log LogDebug (String.append "Arg: " arg) ;; k)
             (ret tt) args.

Definition handle_TRIG (line cmd : string) (args : list string) : M unit :=
  if (cmd == "MODE") && one_arg args then handle_TRIG_MODE args
  else if (cmd == "EDGE:DIR") && one_arg args then handle_TRIG_EDGE_DIR args
  else if (cmd == "LEV") && one_arg args then handle_TRIG_LEV args
  else if (cmd == "SOU") && one_arg args then handle_TRIG_SOU args
  else if (cmd == "DELAY") && one_arg args then handle_TRIG_DELAY args
  else
    log LogDebug
        (String.append "Unrecognized trigger command received: " line) ;;
    log LogDebug (String.append "Command: " cmd) ;;
    log_args args.

Definition handle_unknown (line subject cmd : string) (args : list string)
  : M unit :=
  log LogDebug (String.append "Unrecognized command received: " line) ;;
  log LogDebug (String.append "Subject: " subject) ;;
  log LogDebug (String.append "Command: " cmd) ;;
  log_args args.

(** The [if]/[else if] chain of the main command loop, after the channel
    number has been extracted. *)
Definition dispatch (line : string) (l : scpi_line) (channelId : Z)
  : M loop_ctl :=
  let c := cmd l in
  let a := args l in
  if query l then handle_query line c ;; ret Continue
  else if c == "EXIT" then ret Break
  else if c == "ON" then handle_ON channelId ;; ret Continue
  else if c == "OFF" then handle_OFF channelId ;; ret Continue
  else if (c == "OFFS") && one_arg a then
    handle_OFFS channelId a ;; ret Continue
  else if (c == "ATTEN") && one_arg a then
    handle_ATTEN channelId a ;; ret Continue
  else if (c == "RANGE") && one_arg a then
    handle_RANGE channelId a ;; ret Continue
  else if (c == "RATE") && one_arg a then handle_RATE a ;; ret Continue
  else if (c == "DEPTH") && one_arg a then handle_DEPTH a ;; ret Continue
  else if (c == "START") || (c == "SINGLE") then
    handle_START c ;; ret Continue
  else if c == "FORCE" then handle_FORCE ;; ret Continue
  else if c == "STOP" then handle_STOP ;; ret Continue
  else if subject l == "TRIG" then handle_TRIG line c a ;; ret Continue
  else handle_unknown line (subject l) c a ;; ret Continue.

(** One iteration of the main command loop on a line that [ScpiRecv] has
    delivered. *)
Definition process_line (line : string) : M loop_ctl :=
  let l := ParseScpiLine line in
  log LogTrace line ;;
  channelId <- lift (extract_channel_id (subject l)) ;;
  dispatch line l channelId.

(** [ScpiSend]: the buffer [tempbuf] that is handed to the socket, the reply
    and a newline. *)
Definition ScpiSend (cmd : string) : string :=
  String.append cmd (String "010" EmptyString).

(** [ScpiRecv]: the bytes up to the next newline or semicolon; [None] when
    the connection ends first. *)
Fixpoint ScpiRecv (input : string) (str : string) : option (string * string) :=
  match input with
  | EmptyString => None
  | String c rest =>
      if Ascii.eqb c "010" || Ascii.eqb c ";" then Some (str, rest)
      else ScpiRecv rest (Str.push_back str c)
  end.

(** The lines [ScpiRecv] delivers from the bytes of a connection, one call
    after the other until it fails; [fuel] bounds the number of calls, and
    the length of the input is enough. *)
Fixpoint recv_lines (fuel : nat) (input : string) : list string :=
  match fuel with
  | O => []
  | S n =>
      match ScpiRecv input "" with
      | Some (line, rest) => line :: recv_lines n rest
      | None => []
      end
  end.

(** The main command loop over the lines of one connection; it ends at
    [EXIT] and when [ScpiRecv] fails. *)
Fixpoint command_loop (lines : list string) : M unit :=
  match lines with
  | [] => ret tt
  | line :: rest =>
      c <- process_line line ;;
      match c with
      | Break => ret tt
      | Continue => command_loop rest
      end
  end.

(** One client: the device is reset before and after the command loop. The
    waveform thread that runs beside the loop is outside this file. *)
Definition serve_client (lines : list string) : M unit :=
  call FDwfAnalogInReset ;;
  command_loop lines ;;
  call FDwfAnalogInReset ;;
  ret tt.

(** The accept loop over the clients that connect, one after the other. *)
Fixpoint ScpiServerThread (clients : list (list string)) : M unit :=
  match clients with
  | [] => ret tt
  | lines :: rest => serve_client lines ;; ScpiServerThread rest
  end.

(** The worlds the control thread can be in between two commands, as far as
    this thread's own steps go. *)
Inductive reachable : World -> Prop :=
| reachable_start : reachable initial_world
| reachable_reset w r w' :
    reachable w ->
    call FDwfAnalogInReset w = Done (r, w') ->
    reachable w'
| reachable_line w line c w' :
    reachable w ->
    process_line line w = Done (c, w') ->
    reachable w'.

End Server.

(** ** A simulated bench *)

(** An environment to run the server in: a device with [n] channels on which
    every call succeeds and which reads back the trigger position it was last
    given, rounded to its grid, and one on which every call fails and writes
    nothing (the output variable then reads as zero). [stod] reads plain
    decimal literals. *)
Module Sim.

Fixpoint fraction (s : string) (num den : Z) : Z * Z :=
  match s with
  | String c r =>
      if Str.isdigit c
      then fraction r (10 * num + (Z.of_N (N_of_ascii c) - 48)) (10 * den)
      else (num, den)
  | EmptyString => (num, den)
  end.

Fixpoint after_digits (s : string) : string :=
  match s with
  | String c r => if Str.isdigit c then after_digits r else s
  | EmptyString => s
  end.

Definition decimal_stod (s : string) : result float :=
  match Conv.number_prefix s with
  | None => Fault std_invalid_argument
  | Some (neg, m) =>
      let s1 := Conv.skip_space s in
      let s2 := match s1 with
                | String "-"%char r => r
                | String "+"%char r => r
                | _ => s1
                end in
      let '(num, den) :=
        match after_digits s2 with
        | String "."%char r => fraction r m 1
        | _ => (m, 1)
        end in
      let x := PrimFloat.div (Dbl.of_int64 num) (Dbl.of_int64 den) in
      Done (if neg then PrimFloat.opp x else x)
  end.

Fixpoint last_position (trace : list event) (cur : float) : float :=
  match trace with
  | [] => cur
  | EvSdk (FDwfAnalogInTriggerPositionSet sec) _ :: rest =>
      last_position rest sec
  | _ :: rest => last_position rest cur
  end.

(** The device sets its trigger position on a grid of 10 ns ([grid] is the
    binary64 value of the literal [1e-8]). *)
Definition grid : float := 0x1.5798ee2308c3ap-27%float.

Definition on_grid (sec : float) : float :=
  match Dbl.trunc (PrimFloat.div sec grid) with
  | Some ticks => PrimFloat.mul (Dbl.of_int64 ticks) grid
  | None => sec
  end.

Definition good_device (trace : list event) (c : sdk_call) : sdk_ret :=
  match c with
  | FDwfAnalogInTriggerPositionGet =>
      {| sdk_ok := true; sdk_out1 := on_grid (last_position trace 0%float);
         sdk_out2 := 0%float |}
  | FDwfAnalogInFrequencyInfo =>
      {| sdk_ok := true; sdk_out1 := 1000%float; sdk_out2 := 1e8%float |}
  | _ => {| sdk_ok := true; sdk_out1 := 0%float; sdk_out2 := 0%float |}
  end.

Definition dead_device (trace : list event) (c : sdk_call) : sdk_ret :=
  {| sdk_ok := false; sdk_out1 := 0%float; sdk_out2 := 0%float |}.

Definition bench (n : Z) : Env :=
  {| g_numAnalogInChannels := n; stod := decimal_stod; sdk := good_device |}.

Definition dead_bench (n : Z) : Env :=
  {| g_numAnalogInChannels := n; stod := decimal_stod; sdk := dead_device |}.

(** The globals after a run, when the run does not fault. *)
Definition globals_after (r : result (unit * World)) : option Globals :=
  match r with
  | Done (_, w) => Some (mem w)
  | Fault _ => None
  end.

End Sim.

(** ** Vocabulary of the properties *)

(** A character of a subject: none of the parser's separators. *)
Definition subject_char (c : ascii) : bool :=
  negb (Ascii.eqb c ":") && negb (Ascii.eqb c "?")
  && negb (Str.isspace c) && negb (Ascii.eqb c ",").

(** A character of a command: a colon is allowed after the subject. *)
Definition command_char (c : ascii) : bool :=
  negb (Ascii.eqb c "?") && negb (Str.isspace c) && negb (Ascii.eqb c ",").

(** The line [SUBJECT:CMD?]. *)
Definition query_line (SUBJECT CMD : string) : string :=
  String.append SUBJECT (String ":" (String.append CMD "?")).

(** The characters that [parse_step] adds to [tmp] in state [st]. *)
Definition kept_in (st : parse_state) (c : ascii) : bool :=
  negb (Ascii.eqb c ":" && Str.is_empty (p_subject st))
  && negb (Ascii.eqb c "?")
  && negb (Str.isspace c && Str.is_empty (p_cmd st))
  && negb (Ascii.eqb c ",").

Definition with_tmp (st : parse_state) (t : string) : parse_state :=
  {| p_subject := p_subject st; p_cmd := p_cmd st; p_query := p_query st;
     p_args := p_args st; p_tmp := t; p_reading_cmd := p_reading_cmd st |}.

(** The globals a command leaves, or the fault that ended it. *)
Definition result_mem {A : Type} (r : result (A * World)) : result Globals :=
  match r with
  | Done (_, w) => Done (mem w)
  | Fault f => Fault f
  end.

(** What [check c msg] appends to the trace [t]: the call with the device's
    answer, and the error line when the answer is a failure. *)
Definition check_events {E : Env} (t : list event) (c : sdk_call)
  (msg : string) : list event :=
  EvSdk c (sdk t c)
  :: (if sdk_ok (sdk t c) then [] else [EvLog LogError msg]).

(** The lines logged at error verbosity in a trace, and the calls into the
    SDK it records. *)
Fixpoint error_lines (t : list event) : list string :=
  match t with
  | [] => []
  | EvLog LogError msg :: rest => msg :: error_lines rest
  | _ :: rest => error_lines rest
  end.

Fixpoint device_calls (t : list event) : list sdk_call :=
  match t with
  | [] => []
  | EvSdk c _ :: rest => c :: device_calls rest
  | _ :: rest => device_calls rest
  end.

(** What the arm sequence appends to the trace [t]. *)
Definition arm_events {E : Env} (t : list event) : list event :=
  let e1 := EvSdk FDwfAnalogInAcquisitionModeSet_acqmodeSingle
                  (sdk t FDwfAnalogInAcquisitionModeSet_acqmodeSingle) in
  [e1; EvSdk (FDwfAnalogInConfigure true true)
             (sdk (t ++ [e1]) (FDwfAnalogInConfigure true true))].

(** The globals after the arm sequence, [q] being the quotient of the
    trigger delay by the sample interval. *)
Definition armed_globals (q : Z) (g : Globals) : Globals :=
  set_g_triggerArmed true
    (set_g_triggerSampleIndex (Int.to_size_t q)
       (set_g_sampleIntervalDuringArm (g_sampleInterval g)
          (set_g_channelOnDuringArm (g_channelOn g)
             (set_g_captureMemDepth (g_memDepth g) g)))).

(** [Start] and the re-arm step as functions of the globals alone. *)
Definition Start_globals (g : Globals) : result Globals :=
  match int64_div (g_triggerDelay g) (g_sampleInterval g) with
  | Done q => Done (armed_globals q g)
  | Fault f => Fault f
  end.

Definition rearm_globals (g : Globals) : result Globals :=
  if g_triggerArmed g then Start_globals g else Done g.

(** The arm snapshot holds the live configuration. *)
Definition snapshot_is_live (g : Globals) : Prop :=
  g_captureMemDepth g = g_memDepth g
  /\ g_channelOnDuringArm g = g_channelOn g
  /\ g_sampleIntervalDuringArm g = g_sampleInterval g.

(** No channel of the device reads as enabled. *)
Definition no_channel_enabled {E : Env} (m : gmap Z bool) : Prop :=
  forall i, 0 <= i < g_numAnalogInChannels -> channel_enabled m i = false.

(** Two maps in which every channel reads the same. *)
Definition same_flags (m m' : gmap Z bool) : Prop :=
  forall i, channel_enabled m' i = channel_enabled m i.

(** A command that leaves the component [f] of the globals as it was. *)
Definition preserves {A B : Type} (f : Globals -> B) (m : M A) : Prop :=
  forall w a w', m w = Done (a, w') -> f (mem w') = f (mem w).

(** A command after which [Q] holds of the globals, and one that keeps [Q]
    when it held before. *)
Definition ensures {A : Type} (Q : Globals -> Prop) (m : M A) : Prop :=
  forall w a w', m w = Done (a, w') -> Q (mem w').

Definition keeps {A : Type} (Q : Globals -> Prop) (m : M A) : Prop :=
  forall w a w', Q (mem w) -> m w = Done (a, w') -> Q (mem w').

(** While the trigger is armed, the snapshot holds the live configuration. *)
Definition armed_snapshot_live (g : Globals) : Prop :=
  g_triggerArmed g = true -> snapshot_is_live g.

(** A command that, started with the trigger armed, ends with the arm
    sequence: its last steps take the snapshot of the globals it has reached
    and start the device. *)
Definition rearms {E : Env} {A : Type} (m : M A) : Prop :=
  forall w a w',
    g_triggerArmed (mem w) = true ->
    m w = Done (a, w') ->
    exists w1 q,
      int64_div (g_triggerDelay (mem w1)) (g_sampleInterval (mem w1)) = Done q
      /\ w' = {| mem := armed_globals q (mem w1);
                 out := out w1 ++ arm_events (out w1) |}.

(** The events of the query branch. *)
Definition query_event (e : event) : bool :=
  match e with
  | EvSend _ => true
  | EvLog LogTrace _ => true
  | EvLog LogDebug _ => true
  | EvSdk FDwfAnalogInFrequencyInfo _ => true
  | _ => false
  end.

(** A character that is neither a question mark nor a comma: the two the
    parser never copies. *)
Definition field_char (c : ascii) : bool :=
  negb (Ascii.eqb c "?") && negb (Ascii.eqb c ",").

Definition not_space (c : ascii) : bool := negb (Str.isspace c).

(** A field that is clean and not empty. *)
Definition token (a : string) : Prop :=
  Str.all field_char a = true /\ Str.is_empty a = false.

(** What the parser's loop keeps true of its variables. *)
Definition parse_inv (st : parse_state) : Prop :=
  Str.all field_char (p_subject st) = true
  /\ Str.all field_char (p_cmd st) = true
  /\ Str.all field_char (p_tmp st) = true
  /\ Forall token (p_args st)
  /\ Str.all not_space (p_cmd st) = true
  /\ (Str.is_empty (p_cmd st) = true ->
      Str.all not_space (p_tmp st) = true /\ p_args st = [])
  /\ p_reading_cmd st = Str.is_empty (p_cmd st).

(** The arguments of a command as a client writes them, comma between. *)
Fixpoint join_args (args : list string) : string :=
  match args with
  | [] => ""
  | [a] => a
  | a :: rest => String.append a (String "," (join_args rest))
  end.

(** The line [SUBJECT:CMD ARG,ARG...]. *)
Definition command_line (SUBJECT CMD : string) (args : list string) : string :=
  String.append SUBJECT
    (String ":" (String.append CMD (String " " (join_args args)))).

(** The two bytes that end a line. *)
Definition is_terminator (c : ascii) : bool :=
  Ascii.eqb c "010" || Ascii.eqb c ";".

Definition no_terminator (s : string) : bool :=
  Str.all (fun c => negb (is_terminator c)) s.

(** The bytes of several replies or commands, one after the other. *)
Fixpoint send_all (lines : list string) : string :=
  match lines with
  | [] => ""
  | l :: rest => String.append (ScpiSend l) (send_all rest)
  end.

(** A command whose new events all satisfy [P]. *)
Definition emits {A : Type} (P : event -> bool) (m : M A) : Prop :=
  forall w a w',
    m w = Done (a, w') ->
    exists evs : list event,
      out w' = (out w ++ evs)%list /\ forallb P evs = true.

Definition is_send (e : event) : bool :=
  match e with EvSend _ => true | _ => false end.

Definition is_debug_log (e : event) : bool :=
  match e with EvLog LogDebug _ => true | _ => false end.

(** The number of replies in a trace. *)
Fixpoint replies (evs : list event) : nat :=
  match evs with
  | [] => O
  | e :: rest => ((if is_send e then 1 else 0) + replies rest)%nat
  end.

(** The four queries the server answers. *)
Definition known_query (c : string) : bool :=
  (c == "*IDN") || (c == "CHANS") || (c == "RATES") || (c == "DEPTHS").

(** The commands that are taken without looking at the arguments. *)
Definition argless_command (c : string) : bool :=
  (c == "EXIT") || (c == "ON") || (c == "OFF") || (c == "START")
  || (c == "SINGLE") || (c == "FORCE") || (c == "STOP").

(** Every integer global holds a value of its C++ type: [size_t] for the
    depths, the trigger channel and the sample index, [int64_t] for the
    sample intervals and the trigger delay. *)
Definition in_range (g : Globals) : Prop :=
  0 <= g_memDepth g < 2 ^ 64
  /\ Int.in_int64 (g_sampleInterval g)
  /\ Int.in_int64 (g_triggerDelay g)
  /\ 0 <= g_triggerChannel g < 2 ^ 64
  /\ 0 <= g_triggerSampleIndex g < 2 ^ 64
  /\ 0 <= g_captureMemDepth g < 2 ^ 64
  /\ Int.in_int64 (g_sampleIntervalDuringArm g).

Definition is_reset (e : event) : bool :=
  match e with EvSdk FDwfAnalogInReset _ => true | _ => false end.

(** The number of device resets in a trace. *)
Fixpoint resets (evs : list event) : nat :=
  match evs with
  | [] => O
  | e :: rest => ((if is_reset e then 1 else 0) + resets rest)%nat
  end.

(** A character of an argument on a line without subject: no question
    mark, no comma, no colon. *)
Definition plain_char (c : ascii) : bool :=
  field_char c && negb (Ascii.eqb c ":").

(** The line [CMD ARG,ARG...], without subject. *)
Definition plain_command_line (CMD : string) (args : list string) : string :=
  String.append CMD (String " " (join_args args)).

(** A parsed line with the query flag set. *)
Definition as_query (l : scpi_line) : scpi_line :=
  {| subject := subject l; cmd := cmd l; query := true; args := args l |}.

Definition mark_query (st : parse_state) : parse_state :=
  {| p_subject := p_subject st; p_cmd := p_cmd st; p_query := true;
     p_args := p_args st; p_tmp := p_tmp st;
     p_reading_cmd := p_reading_cmd st |}.

(** What the last [FDwfAnalogInConfigure] of a trace asked of the device,
    to start ([true]) or to stop; [cur] when the trace has none. *)
Fixpoint last_configure (evs : list event) (cur : bool) : bool :=
  match evs with
  | [] => cur
  | EvSdk (FDwfAnalogInConfigure _ start) _ :: rest =>
      last_configure rest start
  | _ :: rest => last_configure rest cur
  end.

Definition is_configure (e : event) : bool :=
  match e with EvSdk (FDwfAnalogInConfigure _ _) _ => true | _ => false end.

(** In world [w] the armed flag is what the device was last asked. *)
Definition armed_as_configured (w : World) : Prop :=
  last_configure (out w) false = g_triggerArmed (mem w).

(** A command that keeps the armed flag and the device in step. *)
Definition tracks {A : Type} (m : M A) : Prop :=
  forall w a w',
    armed_as_configured w -> m w = Done (a, w') -> armed_as_configured w'.

(** While the trigger is armed, the sample index is the quotient of the
    trigger delay by the sample interval, and that division is defined. *)
Definition armed_index_current (g : Globals) : Prop :=
  g_triggerArmed g = true ->
  exists q,
    int64_div (g_triggerDelay g) (g_sampleInterval g) = Done q
    /\ g_triggerSampleIndex g = Int.to_size_t q.

(** * Properties of the parser *)

Lemma append_cons (d : ascii) (t s : string) :
  String.append (String d t) s = String d (String.append t s).
Proof. reflexivity. Qed.

Lemma append_push_back (t s : string) (c : ascii) :
  String.append (Str.push_back t c) s = String.append t (String c s).
Proof.
  unfold Str.push_back. induction t as [|d t IH].
  - reflexivity.
  - rewrite !append_cons. f_equal. exact IH.
Qed.

Lemma append_empty_r (t : string) : String.append t "" = t.
Proof.
  induction t as [|d t IH]; [reflexivity|].
  rewrite append_cons. f_equal. exact IH.
Qed.

Lemma parse_loop_app (s1 s2 : string) (st : parse_state) :
  parse_loop (String.append s1 s2) st = parse_loop s2 (parse_loop s1 st).
Proof.
  revert st. induction s1 as [|c s1 IH]; intros st; [reflexivity|].
  rewrite append_cons. simpl. apply IH.
Qed.

Lemma parse_step_kept (st : parse_state) (c : ascii) :
  kept_in st c = true ->
  parse_step st c = with_tmp st (Str.push_back (p_tmp st) c).
Proof.
  unfold kept_in, parse_step, with_tmp. intros H.
  apply andb_prop in H as [H Hcomma]. apply andb_prop in H as [H Hsp].
  apply andb_prop in H as [Hcol Hq].
  apply negb_true_iff in Hcol, Hq. rewrite Hcol, Hq, Hsp, Hcomma.
  reflexivity.
Qed.

Lemma parse_loop_kept (s : string) (st : parse_state) :
  Str.all (kept_in st) s = true ->
  parse_loop s st = with_tmp st (String.append (p_tmp st) s).
Proof.
  revert st. induction s as [|c s IH]; intros st H; simpl in *.
  - rewrite append_empty_r. now destruct st.
  - apply andb_prop in H as [Hc Hs].
    rewrite (parse_step_kept _ _ Hc), IH by exact Hs.
    unfold with_tmp; simpl. now rewrite append_push_back.
Qed.

Lemma all_impl (p q : ascii -> bool) (s : string) :
  (forall c, p c = true -> q c = true) ->
  Str.all p s = true -> Str.all q s = true.
Proof.
  intros Hpq. induction s as [|c s IH]; simpl; [reflexivity|].
  intros H. apply andb_prop in H as [Hc Hs].
  now rewrite (Hpq _ Hc), IH.
Qed.

(** The parser's query flag: set by a question mark anywhere in the line. *)
Lemma parse_step_query (st : parse_state) (c : ascii) :
  p_query (parse_step st c) = p_query st || Ascii.eqb c "?".
Proof.
  unfold parse_step.
  destruct (Ascii.eqb c ":") eqn:Hc.
  - apply Ascii.eqb_eq in Hc. subst c. simpl.
    destruct (Str.is_empty (p_subject st)); simpl.
    + now rewrite orb_false_r.
    + rewrite orb_false_r.
      destruct (negb (Str.isspace ":" && Str.is_empty (p_cmd st)));
        simpl; [reflexivity|].
      now destruct (Str.is_empty (p_tmp st)), (p_reading_cmd st).
  - simpl. destruct (Ascii.eqb c "?"); simpl.
    + now rewrite orb_true_r.
    + rewrite orb_false_r.
      destruct (negb (Str.isspace c && Str.is_empty (p_cmd st))
                && negb (Ascii.eqb c ",")); simpl; [reflexivity|].
      now destruct (Str.is_empty (p_tmp st)), (p_reading_cmd st).
Qed.

Lemma parse_loop_query (s : string) (st : parse_state) :
  p_query (parse_loop s st) = p_query st || Str.contains "?" s.
Proof.
  revert st. induction s as [|c s IH]; intros st; simpl.
  - now rewrite orb_false_r.
  - rewrite IH, parse_step_query. now rewrite orb_assoc.
Qed.

Lemma ParseScpiLine_query (line : string) :
  query (ParseScpiLine line) = Str.contains "?" line.
Proof.
  unfold ParseScpiLine, parse_finish.
  pose proof (parse_loop_query line parse_init) as H. simpl in H.
  destruct (negb (Str.is_empty (p_tmp (parse_loop line parse_init))));
    [destruct (negb (Str.is_empty (p_cmd (parse_loop line parse_init))))|];
    simpl; exact H.
Qed.

(** [ScpiRecv] ends a line at a semicolon and at a newline, leaves the
    terminator out, and fails on what follows the last terminator. *)
Example recv_lines_terminators :
  recv_lines 15 (String.append "C1:ON;START" (String "010" "STO"))
  = ["C1:ON"; "START"].
Proof. reflexivity. Qed.

(** C6 (as the code has it). For every line [SUBJECT:CMD?], with [SUBJECT] a
    token that is not empty and holds no colon, question mark, comma or white
    space, and [CMD] a token without question mark, comma or white space, the
    parser yields the subject [SUBJECT], the command [CMD], the query flag and
    no argument. The line [TRIG:LEV 1.5] gives subject [TRIG], command [LEV],
    the one argument [1.5] and no query flag. The line [*IDN?] gives an empty
    subject, the query flag and the command [*IDN], asterisk included. *)
Theorem ParseScpiLine_forms (SUBJECT CMD : string) :
  Str.is_empty SUBJECT = false ->
  Str.all subject_char SUBJECT = true ->
  Str.all command_char CMD = true ->
  ParseScpiLine (query_line SUBJECT CMD)
    = {| subject := SUBJECT; cmd := CMD; query := true; args := [] |}
  /\ ParseScpiLine "TRIG:LEV 1.5"
    = {| subject := "TRIG"; cmd := "LEV"; query := false; args := ["1.5"] |}
  /\ ParseScpiLine "*IDN?"
    = {| subject := ""; cmd := "*IDN"; query := true; args := [] |}.
Proof.
  intros Hne HS HC. split; [|split; reflexivity].
  unfold ParseScpiLine, query_line.
  rewrite parse_loop_app.
  rewrite (parse_loop_kept SUBJECT parse_init).
  2:{ apply (all_impl subject_char); [|exact HS].
      intros c Hc. unfold subject_char in Hc. unfold kept_in; simpl.
      apply andb_prop in Hc as [Hc H4]. apply andb_prop in Hc as [Hc H3].
      apply andb_prop in Hc as [H1 H2].
      rewrite H2, H4. apply negb_true_iff in H1, H3. rewrite H1, H3.
      reflexivity. }
  simpl. rewrite parse_loop_app.
  set (st1 := parse_step _ _).
  assert (Hst1 : st1 = {| p_subject := SUBJECT; p_cmd := ""; p_query := false;
                          p_args := []; p_tmp := ""; p_reading_cmd := true |})
    by reflexivity.
  rewrite (parse_loop_kept CMD st1).
  2:{ apply (all_impl command_char); [|exact HC].
      intros c Hc. unfold command_char in Hc. unfold kept_in.
      rewrite Hst1; simpl. rewrite Hne, andb_false_r.
      apply andb_prop in Hc as [Hc H3]. apply andb_prop in Hc as [H1 H2].
      rewrite H1, H3. apply negb_true_iff in H2. rewrite H2. reflexivity. }
  rewrite Hst1. simpl.
  destruct CMD as [|c CMD]; simpl.
  - reflexivity.
  - destruct (Ascii.eqb c ":"); reflexivity.
Qed.

(** The theorem at the line [C1:OFFS?]. *)
Lemma ParseScpiLine_forms_witness :
  ParseScpiLine "C1:OFFS?"
    = {| subject := "C1"; cmd := "OFFS"; query := true; args := [] |}
  /\ ParseScpiLine "TRIG:LEV 1.5"
    = {| subject := "TRIG"; cmd := "LEV"; query := false; args := ["1.5"] |}
  /\ ParseScpiLine "*IDN?"
    = {| subject := ""; cmd := "*IDN"; query := true; args := [] |}.
Proof.
  exact (ParseScpiLine_forms "C1" "OFFS" eq_refl eq_refl eq_refl).
Defined.

(** C6, the claim as written fails: the command parsed from [*IDN?] is
    [*IDN], not [IDN]. *)
Lemma ParseScpiLine_IDN_keeps_asterisk :
  ParseScpiLine "*IDN?"
    <> {| subject := ""; cmd := "IDN"; query := true; args := [] |}.
Proof. discriminate. Qed.

(** * Properties of the command loop *)

Section Run.

Context {E : Env}.

Lemma check_run (c : sdk_call) (msg : string) (w : World) :
  check c msg w
  = Done (tt, {| mem := mem w; out := out w ++ check_events (out w) c msg |}).
Proof.
  unfold check, check_events, bind, call, ret, log, emit.
  destruct (sdk_ok (sdk (out w) c)); simpl; [reflexivity|].
  now rewrite <- app_assoc.
Qed.

Lemma Start_run (force : bool) (w : World) :
  Start force w
  = match int64_div (g_triggerDelay (mem w)) (g_sampleInterval (mem w)) with
    | Done q =>
        Done (tt, {| mem := armed_globals q (mem w);
                     out := out w ++ arm_events (out w) |})
    | Fault f => Fault f
    end.
Proof.
  unfold Start, bind, modify, get, lift, call, arm_events; simpl.
  destruct (int64_div _ _); simpl; [|reflexivity].
  now rewrite <- app_assoc.
Qed.

Lemma rearm_run (w : World) :
  rearm w = if g_triggerArmed (mem w) then Start false w else Done (tt, w).
Proof.
  unfold rearm, bind, get, ret. now destruct (g_triggerArmed (mem w)).
Qed.

Lemma Stop_run (w : World) :
  Stop w
  = Done (tt, {| mem := set_g_triggerArmed false (mem w);
                 out := out w ++ [EvSdk (FDwfAnalogInConfigure true false)
                                    (sdk (out w)
                                       (FDwfAnalogInConfigure true false))] |}).
Proof. reflexivity. Qed.

Lemma Start_mem (force : bool) (w : World) :
  result_mem (Start force w) = Start_globals (mem w).
Proof.
  rewrite Start_run. unfold Start_globals.
  now destruct (int64_div _ _).
Qed.

Lemma rearm_mem (w : World) :
  result_mem (rearm w) = rearm_globals (mem w).
Proof.
  rewrite rearm_run. unfold rearm_globals.
  destruct (g_triggerArmed (mem w)); [apply Start_mem|reflexivity].
Qed.

Lemma process_line_run (line : string) (w : World) :
  process_line line w
  = match extract_channel_id (subject (ParseScpiLine line)) with
    | Done channelId =>
        dispatch line (ParseScpiLine line) channelId
                 {| mem := mem w; out := out w ++ [EvLog LogTrace line] |}
    | Fault f => Fault f
    end.
Proof.
  unfold process_line, bind, log, emit, lift.
  now destruct (extract_channel_id _).
Qed.

Lemma handle_ON_run (channelId : Z) (w : World) :
  handle_ON channelId w
  = rearm {| mem := set_g_memDepthChanged true
                      (set_g_channelOn
                         (<[channelId := true]> (g_channelOn (mem w)))
                         (mem w));
             out := out w
                    ++ check_events (out w)
                         (FDwfAnalogInChannelEnableSet channelId true)
                         "FDwfAnalogInChannelEnableSet failed" |}.
Proof.
  unfold handle_ON, bind at 1 2. unfold modify at 1. cbn beta iota.
  rewrite check_run. reflexivity.
Qed.

Lemma handle_OFF_run (channelId : Z) (w : World) :
  handle_OFF channelId w
  = rearm {| mem := set_g_memDepthChanged true
                      (set_g_channelOn
                         (<[channelId := true]> (g_channelOn (mem w)))
                         (mem w));
             out := out w
                    ++ check_events (out w)
                         (FDwfAnalogInChannelEnableSet channelId false)
                         "FDwfAnalogInChannelEnableSet failed" |}.
Proof.
  unfold handle_OFF, bind at 1 2. unfold modify at 1. cbn beta iota.
  rewrite check_run. reflexivity.
Qed.

Lemma handle_START_run (c : string) (w : World) :
  handle_START c w
  = if g_triggerArmed (mem w) then
      Done (tt, {| mem := mem w;
                   out := out w ++ [EvLog LogVerbose
        "Ignoring START command because trigger is already armed"] |})
    else
      let r := any_channel_on (Z.to_nat g_numAnalogInChannels) 0
                              (g_channelOn (mem w)) in
      let w1 := {| mem := set_g_channelOn (snd r) (mem w); out := out w |} in
      if fst r then
        match Start false w1 with
        | Done (_, w2) =>
            Done (tt, {| mem := set_g_triggerOneShot (c == "SINGLE") (mem w2);
                         out := out w2 |})
        | Fault f => Fault f
        end
      else
        Done (tt, {| mem := mem w1;
                     out := out w ++ [EvLog LogVerbose
        "Ignoring START command because no channels are active"] |}).
Proof.
  unfold handle_START, bind at 1. unfold get at 1. cbn beta iota.
  destruct (g_triggerArmed (mem w)); [reflexivity|].
  destruct (any_channel_on _ _ _) as [b m]. cbn [fst snd].
  unfold bind, modify. cbn beta iota.
  destruct b; cbn [negb]; [|reflexivity].
  destruct (Start false _) as [[[] w2]|f]; reflexivity.
Qed.

End Run.

(** ** Arming divides by the sample interval *)

Lemma extract_channel_id_C1 (E : Env) :
  0 <= g_numAnalogInChannels -> extract_channel_id "C1" = Done 0.
Proof.
  intros H. unfold extract_channel_id.
  change (Ascii.eqb (Str.toupper (Str.at_ "C1" 0)) "C") with true.
  change (Conv.stoi (Str.tail "C1")) with (@Done Z 1). cbn iota.
  f_equal. change (Int.to_size_t (Int.to_int32 (1 - 1))) with 0. lia.
Qed.

Lemma any_channel_on_found (k : nat) (first : Z) (m : gmap Z bool) :
  m !! first = Some true -> any_channel_on (S k) first m = (true, m).
Proof.
  intros H. cbn [any_channel_on]. unfold map_subscript. now rewrite H.
Qed.

(** C9. The sample interval is zero at process start, [Start] divides the
    trigger delay by it without a test, and so arming before any [RATE]
    command divides by zero: [FORCE] as the first command does, and so does
    [C1:ON] followed by [START] on a device with a channel. *)
Theorem arming_before_RATE_divides_by_zero (E : Env) :
  g_sampleInterval initial_globals = 0
  /\ (forall (force : bool) (g : Globals) (t : list event),
        Start force {| mem := set_g_sampleInterval 0 g; out := t |}
        = Fault divide_by_zero)
  /\ command_loop ["FORCE"] initial_world = Fault divide_by_zero
  /\ (1 <= g_numAnalogInChannels ->
      command_loop ["C1:ON"; "START"] initial_world = Fault divide_by_zero).
Proof.
  split; [reflexivity|]. split; [|split].
  - intros force g t. rewrite Start_run. reflexivity.
  - reflexivity.
  - intros Hn. unfold command_loop, bind at 1.
    rewrite process_line_run.
    change (subject (ParseScpiLine "C1:ON")) with "C1".
    rewrite extract_channel_id_C1 by lia.
    change (ParseScpiLine "C1:ON")
      with {| subject := "C1"; cmd := "ON"; query := false; args := [] |}.
    unfold dispatch. cbn [query cmd args subject String.eqb Ascii.eqb
                          Bool.eqb andb orb].
    unfold bind at 1. rewrite handle_ON_run, rearm_run. cbn [mem out].
    change (g_triggerArmed _) with false. cbn beta iota. unfold ret at 1.
    unfold bind at 1. rewrite process_line_run.
    change (extract_channel_id (subject (ParseScpiLine "START")))
      with (@Done Z 0).
    change (ParseScpiLine "START")
      with {| subject := ""; cmd := "START"; query := false; args := [] |}.
    unfold dispatch. cbn [query cmd args subject String.eqb Ascii.eqb
                          Bool.eqb andb orb].
    unfold bind at 1. rewrite handle_START_run. cbn [mem out].
    change (g_triggerArmed _) with false. cbn beta iota zeta.
    destruct (Z.to_nat g_numAnalogInChannels) as [|k] eqn:Hk; [lia|].
    rewrite any_channel_on_found by apply lookup_insert_eq.
    cbn [fst snd]. rewrite Start_run. reflexivity.
Qed.

(** The theorem on the bench with four channels. *)
Lemma arming_before_RATE_divides_by_zero_witness :
  command_loop (E := Sim.bench 4) ["FORCE"] initial_world
  = Fault divide_by_zero
  /\ command_loop (E := Sim.bench 4) ["C1:ON"; "START"] initial_world
     = Fault divide_by_zero.
Proof.
  destruct (arming_before_RATE_divides_by_zero (Sim.bench 4))
    as (_ & _ & Hforce & Hstart).
  split; [exact Hforce|]. apply Hstart. simpl. lia.
Defined.

(** ** The [OFF] command *)

Lemma result_mem_continue (m : M unit) (w : World) :
  result_mem (bind m (fun _ => ret Continue) w) = result_mem (m w).
Proof. unfold bind, ret. now destruct (m w) as [[[] w']|f]. Qed.

(** C1 (the code departs from it). For every channel and every world, the
    [OFF] command leaves in memory what [ON] leaves: the channel's entry of
    the map set to [true], the dirty flag set, and the re-arm step after
    that. On the bench, [C1:OFF] as the first command finds channel 0
    disabled and leaves it enabled in memory, while the device is told to
    disable it. *)
Theorem OFF_stores_true (E : Env) (line sub : string) (a : list string)
  (channelId : Z) (w : World) :
  result_mem
    (dispatch line
       {| subject := sub; cmd := "OFF"; query := false; args := a |}
       channelId w)
  = rearm_globals
      (set_g_memDepthChanged true
         (set_g_channelOn (<[channelId := true]> (g_channelOn (mem w)))
            (mem w)))
  /\ result_mem
       (dispatch line
          {| subject := sub; cmd := "OFF"; query := false; args := a |}
          channelId w)
     = result_mem
         (dispatch line
            {| subject := sub; cmd := "ON"; query := false; args := a |}
            channelId w)
  /\ exists w',
       process_line (E := Sim.bench 4) "C1:OFF" initial_world
       = Done (Continue, w')
       /\ channel_enabled (g_channelOn (mem initial_world)) 0 = false
       /\ channel_enabled (g_channelOn (mem w')) 0 = true
       /\ g_memDepthChanged (mem w') = true
       /\ In (EvSdk (FDwfAnalogInChannelEnableSet 0 false)
                {| sdk_ok := true; sdk_out1 := 0; sdk_out2 := 0 |})
             (out w').
Proof.
  assert (Hoff : forall c : string,
    (c = "OFF" \/ c = "ON") ->
    result_mem
      (dispatch line
         {| subject := sub; cmd := c; query := false; args := a |}
         channelId w)
    = rearm_globals
        (set_g_memDepthChanged true
           (set_g_channelOn (<[channelId := true]> (g_channelOn (mem w)))
              (mem w)))).
  { intros c [-> | ->].
    - change (dispatch _ _ _ _)
        with (bind (handle_OFF channelId) (fun _ => ret Continue) w).
      rewrite result_mem_continue, handle_OFF_run. apply rearm_mem.
    - change (dispatch _ _ _ _)
        with (bind (handle_ON channelId) (fun _ => ret Continue) w).
      rewrite result_mem_continue, handle_ON_run. apply rearm_mem. }
  split; [apply Hoff; now left|]. split.
  - rewrite (Hoff "OFF") by now left.
    rewrite (Hoff "ON") by now right. reflexivity.
  - eexists. split; [vm_compute; reflexivity|].
    repeat split; try (vm_compute; reflexivity).
    right. left. reflexivity.
Qed.

(** ** The channel number of a subject *)

Lemma stoi_range (s : string) (n : Z) :
  Conv.stoi s = Done n -> Int.INT_MIN <= n <= Int.INT_MAX.
Proof.
  unfold Conv.stoi. destruct (Conv.number_prefix s) as [[neg m]|]; [|easy].
  destruct (_ && _) eqn:H; [|easy].
  intros [= <-]. apply andb_prop in H as [H1 H2]. lia.
Qed.

(** C2 (the code departs from it). For a subject [C<n>] with [n >= 1], the
    channel number is the smaller of [n - 1] and the channel count itself,
    not the count less one: one past the last channel is let through. *)
Theorem channel_id_clamps_to_channel_count (E : Env) (s : string) (n : Z) :
  Conv.stoi s = Done n ->
  1 <= n ->
  extract_channel_id (String "C" s)
  = Done (Z.min (n - 1) g_numAnalogInChannels).
Proof.
  intros Hs Hn. pose proof (stoi_range _ _ Hs) as Hr.
  unfold extract_channel_id.
  change (Ascii.eqb (Str.toupper (Str.at_ (String "C" s) 0)) "C") with true.
  change (Str.tail (String "C" s)) with s. rewrite Hs. cbn iota.
  do 2 f_equal. unfold Int.to_size_t, Int.to_int32.
  unfold Int.INT_MIN, Int.INT_MAX in Hr.
  rewrite (Z.mod_small (n - 1 + 2 ^ 31)) by lia.
  rewrite Z.mod_small by lia. lia.
Qed.

(** The theorem at the subject [C99] on a device with four channels: the
    channel number is 4. *)
Lemma channel_id_clamps_to_channel_count_witness :
  extract_channel_id (E := Sim.bench 4) "C99" = Done 4.
Proof.
  exact (channel_id_clamps_to_channel_count (Sim.bench 4) "99" 99
           eq_refl ltac:(lia)).
Defined.

(** ** [TRIG:MODE] *)

(** C4 (the code departs from it). From every world, armed or not, the line
    [TRIG:MODE EDGE] leaves the globals as they are and sends the device the
    trigger type and nothing else: no arm sequence follows. *)
Theorem TRIG_MODE_does_not_rearm (E : Env) (w : World) :
  process_line "TRIG:MODE EDGE" w
  = Done (Continue,
          {| mem := mem w;
             out := out w
                    ++ EvLog LogTrace "TRIG:MODE EDGE"
                    :: check_events (out w ++ [EvLog LogTrace "TRIG:MODE EDGE"])
                         FDwfAnalogInTriggerTypeSet_trigtypeEdge
                         "FDwfAnalogInTriggerTypeSet failed" |}).
Proof.
  rewrite process_line_run.
  change (extract_channel_id (subject (ParseScpiLine "TRIG:MODE EDGE")))
    with (@Done Z 0).
  change (ParseScpiLine "TRIG:MODE EDGE")
    with {| subject := "TRIG"; cmd := "MODE"; query := false;
            args := ["EDGE"] |}.
  change (dispatch _ _ _ ?w0)
    with (bind (check FDwfAnalogInTriggerTypeSet_trigtypeEdge
                      "FDwfAnalogInTriggerTypeSet failed")
               (fun _ => ret Continue) w0).
  unfold bind. rewrite check_run. unfold ret. cbn [mem out].
  now rewrite <- app_assoc.
Qed.

(** ** The admission test of [START] and [SINGLE] *)

Lemma map_subscript_same_flags (m : gmap Z bool) (i : Z) :
  same_flags m (snd (map_subscript m i)).
Proof.
  intros j. unfold channel_enabled, map_subscript.
  destruct (m !! i) eqn:Hi; cbn [snd]; [reflexivity|].
  destruct (decide (i = j)) as [<-|Hne].
  - rewrite lookup_insert_eq, Hi. reflexivity.
  - rewrite lookup_insert_ne by exact Hne. now destruct (m !! j).
Qed.

Lemma map_subscript_keeps (m : gmap Z bool) (i j : Z) (b : bool) :
  m !! j = Some b -> snd (map_subscript m i) !! j = Some b.
Proof.
  intros Hj. unfold map_subscript.
  destruct (m !! i) eqn:Hi; cbn [snd]; [exact Hj|].
  rewrite lookup_insert_ne; [exact Hj|]. congruence.
Qed.

Lemma map_subscript_fst (m : gmap Z bool) (i : Z) :
  fst (map_subscript m i) = channel_enabled m i.
Proof. reflexivity. Qed.

(** With no channel on among those it visits, the loop answers [false] and
    leaves a map that reads the same and keeps every entry it had. *)
Lemma any_channel_on_none (count : nat) (first : Z) (m : gmap Z bool) :
  (forall i, first <= i < first + Z.of_nat count ->
             channel_enabled m i = false) ->
  fst (any_channel_on count first m) = false
  /\ same_flags m (snd (any_channel_on count first m))
  /\ (forall i b, m !! i = Some b ->
                  snd (any_channel_on count first m) !! i = Some b).
Proof.
  revert first m. induction count as [|k IH]; intros first m Hoff.
  - cbn. repeat split; auto.
  - cbn [any_channel_on].
    pose proof (map_subscript_fst m first) as Hfst.
    pose proof (map_subscript_same_flags m first) as Hsame.
    pose proof (map_subscript_keeps m first) as Hkeep.
    destruct (map_subscript m first) as [b m']. cbn [fst snd] in *.
    rewrite Hoff in Hfst by lia. subst b.
    destruct (IH (first + 1) m') as (H1 & H2 & H3).
    { intros i Hi. rewrite Hsame. apply Hoff. lia. }
    repeat split; [exact H1| |].
    + intros i. rewrite H2. apply Hsame.
    + intros i b Hb. apply H3, Hkeep, Hb.
Qed.

(** With a channel on among those it visits, the loop answers [true]. *)
Lemma any_channel_on_some (count : nat) (first : Z) (m : gmap Z bool) :
  (exists i, first <= i < first + Z.of_nat count
             /\ channel_enabled m i = true) ->
  fst (any_channel_on count first m) = true.
Proof.
  revert first m. induction count as [|k IH]; intros first m (i & Hi & Hon).
  - lia.
  - cbn [any_channel_on].
    pose proof (map_subscript_fst m first) as Hfst.
    pose proof (map_subscript_same_flags m first) as Hsame.
    destruct (map_subscript m first) as [b m']. cbn [fst snd] in *.
    destruct b; [reflexivity|].
    apply IH. exists i. split; [|now rewrite Hsame].
    destruct (decide (i = first)) as [->|Hne]; [congruence|lia].
Qed.

(** C3 (as the code has it). When the trigger is armed, [START] and
    [SINGLE] change no global: they log one line. When it is disarmed and no
    channel of the device reads as enabled, they likewise log one line, and
    they change no global but the channel map, in which every channel reads
    as before and every entry is kept (the test reads each channel with
    [operator[]], which creates the entries that were missing). [FORCE]
    runs the arm sequence in any state; it ends armed whenever the division
    of the trigger delay by the sample interval is defined. *)
Theorem START_SINGLE_guard_and_FORCE (E : Env) (line sub : string)
  (a : list string) (channelId : Z) (w : World) :
  let START :=
    {| subject := sub; cmd := "START"; query := false; args := a |} in
  let SINGLE :=
    {| subject := sub; cmd := "SINGLE"; query := false; args := a |} in
  let FORCE :=
    {| subject := sub; cmd := "FORCE"; query := false; args := a |} in
  (g_triggerArmed (mem w) = true ->
   let w' := {| mem := mem w;
                out := out w ++ [EvLog LogVerbose
       "Ignoring START command because trigger is already armed"] |} in
   dispatch line START channelId w = Done (Continue, w')
   /\ dispatch line SINGLE channelId w = Done (Continue, w'))
  /\ (g_triggerArmed (mem w) = false ->
      no_channel_enabled (g_channelOn (mem w)) ->
      exists m : gmap Z bool,
        same_flags (g_channelOn (mem w)) m
        /\ (forall i b, g_channelOn (mem w) !! i = Some b -> m !! i = Some b)
        /\ let w' := {| mem := set_g_channelOn m (mem w);
                        out := out w ++ [EvLog LogVerbose
       "Ignoring START command because no channels are active"] |} in
           dispatch line START channelId w = Done (Continue, w')
           /\ dispatch line SINGLE channelId w = Done (Continue, w'))
  /\ (forall q : Z,
        int64_div (g_triggerDelay (mem w)) (g_sampleInterval (mem w))
        = Done q ->
        dispatch line FORCE channelId w
        = Done (Continue, {| mem := armed_globals q (mem w);
                             out := out w ++ arm_events (out w) |})).
Proof.
  intros START SINGLE FORCE.
  assert (Hd : forall c : string, c = "START" \/ c = "SINGLE" ->
    dispatch line {| subject := sub; cmd := c; query := false; args := a |}
             channelId w
    = bind (handle_START c) (fun _ => ret Continue) w).
  { intros c [-> | ->]; reflexivity. }
  split; [|split].
  - intros Harmed. cbv zeta. unfold START, SINGLE.
    rewrite !Hd by auto. unfold bind. rewrite !handle_START_run, Harmed.
    split; reflexivity.
  - intros Harmed Hnone.
    destruct (any_channel_on_none (Z.to_nat g_numAnalogInChannels) 0
                (g_channelOn (mem w))) as (H1 & H2 & H3).
    { intros i Hi. apply Hnone. lia. }
    exists (snd (any_channel_on (Z.to_nat g_numAnalogInChannels) 0
                   (g_channelOn (mem w)))).
    split; [exact H2|]. split; [exact H3|].
    cbv zeta. unfold START, SINGLE.
    rewrite !Hd by auto. unfold bind. rewrite !handle_START_run, Harmed.
    cbv zeta. rewrite H1. split; reflexivity.
  - intros q Hq. unfold FORCE.
    change (dispatch _ _ _ _)
      with (bind (Start true) (fun _ => ret Continue) w).
    unfold bind. rewrite Start_run, Hq. reflexivity.
Qed.

Lemma no_channel_enabled_empty (E : Env) : no_channel_enabled ∅.
Proof.
  intros i _. unfold channel_enabled, map_subscript.
  now rewrite lookup_empty.
Qed.

(** The theorem on the bench: [START] as the first command, and [FORCE] in
    the first world with a sample interval of 1000 fs. *)
Lemma START_SINGLE_guard_and_FORCE_witness :
  (exists m : gmap Z bool,
     same_flags ∅ m
     /\ dispatch (E := Sim.bench 4) "START"
          {| subject := ""; cmd := "START"; query := false; args := [] |}
          0 initial_world
        = Done (Continue,
                {| mem := set_g_channelOn m initial_globals;
                   out := [EvLog LogVerbose
         "Ignoring START command because no channels are active"] |}))
  /\ g_triggerArmed
       (armed_globals 0 (set_g_sampleInterval 1000 initial_globals)) = true
  /\ dispatch (E := Sim.bench 4) "FORCE"
       {| subject := ""; cmd := "FORCE"; query := false; args := [] |}
       0 {| mem := set_g_sampleInterval 1000 initial_globals; out := [] |}
     = Done (Continue,
             {| mem := armed_globals 0
                         (set_g_sampleInterval 1000 initial_globals);
                out := arm_events (E := Sim.bench 4) [] |}).
Proof.
  split; [|split; [reflexivity|]].
  - destruct (START_SINGLE_guard_and_FORCE (Sim.bench 4) "START" "" [] 0
                initial_world) as (_ & H & _).
    destruct (H eq_refl (no_channel_enabled_empty _)) as (m & Hm & _ & Hs & _).
    exists m. split; [exact Hm | exact Hs].
  - destruct (START_SINGLE_guard_and_FORCE (Sim.bench 4) "FORCE" "" [] 0
                {| mem := set_g_sampleInterval 1000 initial_globals;
                   out := [] |}) as (_ & _ & H).
    exact (H 0 eq_refl).
Defined.

(** C3, the claim as written fails on the bench. At process start no channel
    is enabled and [FORCE] does not end armed: the division by the sample
    interval, which is zero, ends the process. So does the division of the
    least [int64_t] delay by an interval of -1. And [START] at process start,
    which is ignored, leaves a channel map that is not the one it found. *)
Lemma FORCE_at_start_does_not_arm :
  no_channel_enabled (E := Sim.bench 4) (g_channelOn (mem initial_world))
  /\ process_line (E := Sim.bench 4) "FORCE" initial_world
     = Fault divide_by_zero
  /\ command_loop (E := Sim.bench 4)
       ["RATE -1000000000000000"; "TRIG:DELAY 9223372036854775808"; "FORCE"]
       initial_world
     = Fault signed_overflow
  /\ exists w',
       process_line (E := Sim.bench 4) "START" initial_world
       = Done (Continue, w')
       /\ mem w' <> mem initial_world.
Proof.
  split; [apply no_channel_enabled_empty|].
  split; [reflexivity|]. split; [vm_compute; reflexivity|].
  eexists. split; [vm_compute; reflexivity|].
  intros H. apply (f_equal (fun g => g_channelOn g !! 0)) in H.
  vm_compute in H. discriminate H.
Qed.

(** ** What a command leaves alone *)

Section Frame.

Context {E : Env} {B : Type} (f : Globals -> B).

Lemma preserves_ret {A : Type} (a : A) : preserves f (ret a).
Proof. intros w a' w' [= _ <-]. reflexivity. Qed.

Lemma preserves_bind {A C : Type} (m : M A) (k : A -> M C) :
  preserves f m -> (forall a, preserves f (k a)) -> preserves f (bind m k).
Proof.
  intros Hm Hk w c w'. unfold bind.
  destruct (m w) as [[a w1]|e] eqn:Hw; [|discriminate].
  intros H. rewrite (Hk _ _ _ _ H). exact (Hm _ _ _ Hw).
Qed.

Lemma preserves_lift {A : Type} (r : result A) : preserves f (lift r).
Proof. intros w a w'. unfold lift. destruct r; now intros [= _ <-]. Qed.

Lemma preserves_get : preserves f get.
Proof. intros w a w' [= _ <-]. reflexivity. Qed.

Lemma preserves_emit (e : event) : preserves f (emit e).
Proof. intros w a w' [= _ <-]. reflexivity. Qed.

Lemma preserves_log (l : log_level) (msg : string) : preserves f (log l msg).
Proof. apply preserves_emit. Qed.

Lemma preserves_call (c : sdk_call) : preserves f (call c).
Proof. intros w a w' [= _ <-]. reflexivity. Qed.

Lemma preserves_check (c : sdk_call) (msg : string) :
  preserves f (check c msg).
Proof. intros w a w'. rewrite check_run. now intros [= _ <-]. Qed.

Lemma preserves_modify (h : Globals -> Globals) :
  (forall g, f (h g) = f g) -> preserves f (modify h).
Proof. intros Hh w a w' [= _ <-]. apply Hh. Qed.

Lemma preserves_log_args (a : list string) : preserves f (log_args a).
Proof.
  induction a as [|x a IH]; cbn [log_args fold_right].
  - apply preserves_ret.
  - apply preserves_bind; [apply preserves_log|intros _; exact IH].
Qed.

End Frame.

(** Takes a command apart along its binds, down to the steps above; the
    assignments are left to [reflexivity], which succeeds for a component
    that they do not write. *)
Ltac frame_step :=
  first
    [ apply preserves_ret
    | apply preserves_lift
    | apply preserves_get
    | apply preserves_log
    | apply preserves_emit
    | apply preserves_call
    | apply preserves_check
    | apply preserves_log_args
    | apply preserves_modify; intros ?; reflexivity
    | apply preserves_bind; [|intros ?]
    | match goal with
      | |- preserves _ (if ?b then _ else _) => destruct b
      | |- preserves _ (let _ := _ in _) => cbv zeta
      end ].

Ltac frame := repeat frame_step.

Section OneShot.

Context {E : Env}.

Lemma dispatch_preserves_oneShot (line : string) (l : scpi_line)
  (channelId : Z) :
  query l = true \/ (cmd l == "START") || (cmd l == "SINGLE") = false ->
  preserves g_triggerOneShot (dispatch line l channelId).
Proof.
  intros H. unfold dispatch. cbv zeta.
  destruct (query l).
  { unfold handle_query. frame. }
  destruct H as [H|H]; [discriminate|].
  repeat match goal with
         | |- preserves _ (if ?b then _ else _) => destruct b
         end;
    try discriminate;
    unfold handle_ON, handle_OFF, handle_OFFS, handle_ATTEN, handle_RANGE,
      handle_RATE, handle_DEPTH, handle_FORCE, handle_STOP, Stop, handle_TRIG,
      handle_TRIG_MODE, handle_TRIG_EDGE_DIR, handle_TRIG_LEV,
      handle_TRIG_SOU, handle_TRIG_DELAY, handle_unknown;
    frame.
Qed.

End OneShot.

(** ** The one-shot flag *)

Lemma command_loop_reachable (E : Env) (lines : list string) (w w' : World) :
  reachable w -> command_loop lines w = Done (tt, w') -> reachable w'.
Proof.
  revert w. induction lines as [|line rest IH]; intros w Hw.
  - intros [= <-]. exact Hw.
  - cbn [command_loop]. unfold bind at 1.
    destruct (process_line line w) as [[c w1]|f] eqn:Hl; [|discriminate].
    pose proof (reachable_line _ _ _ _ Hw Hl) as Hw1.
    destruct c; [apply IH, Hw1|].
    intros [= <-]. exact Hw1.
Qed.

(** C5 (as the code has it). A command leaves the one-shot flag true only
    if it found it true or is a [SINGLE] that was admitted and armed the
    trigger. An admitted [START] or [SINGLE] (trigger disarmed, a channel of
    the device enabled, the division by the sample interval defined) ends
    armed, with the flag false after [START] and true after [SINGLE]. [STOP]
    disarms and leaves the flag as it was. *)
Theorem one_shot_flag (E : Env) (line : string) (w : World) :
  (forall c w',
     process_line line w = Done (c, w') ->
     g_triggerOneShot (mem w') = true ->
     g_triggerOneShot (mem w) = true
     \/ (query (ParseScpiLine line) = false
         /\ cmd (ParseScpiLine line) = "SINGLE"
         /\ g_triggerArmed (mem w) = false
         /\ g_triggerArmed (mem w') = true))
  /\ (forall (sub c : string) (a : list string) (channelId q : Z),
        c = "START" \/ c = "SINGLE" ->
        g_triggerArmed (mem w) = false ->
        (exists i, 0 <= i < g_numAnalogInChannels
                   /\ channel_enabled (g_channelOn (mem w)) i = true) ->
        int64_div (g_triggerDelay (mem w)) (g_sampleInterval (mem w))
        = Done q ->
        exists w',
          dispatch line
            {| subject := sub; cmd := c; query := false; args := a |}
            channelId w
          = Done (Continue, w')
          /\ g_triggerArmed (mem w') = true
          /\ g_triggerOneShot (mem w') = (c == "SINGLE"))
  /\ (forall (sub : string) (a : list string) (channelId : Z),
        exists w',
          dispatch line
            {| subject := sub; cmd := "STOP"; query := false; args := a |}
            channelId w
          = Done (Continue, w')
          /\ g_triggerArmed (mem w') = false
          /\ g_triggerOneShot (mem w') = g_triggerOneShot (mem w)).
Proof.
  assert (Hd : forall (sub c : string) (a : list string) channelId w0,
    c = "START" \/ c = "SINGLE" ->
    dispatch line {| subject := sub; cmd := c; query := false; args := a |}
             channelId w0
    = bind (handle_START c) (fun _ => ret Continue) w0).
  { intros sub c a channelId w0 [-> | ->]; reflexivity. }
  split; [|split].
  - intros c w'. rewrite process_line_run.
    destruct (extract_channel_id _) as [channelId|]; [|discriminate].
    set (w0 := {| mem := mem w; out := _ |}).
    intros Hrun Hone.
    destruct (query (ParseScpiLine line)) eqn:Hq.
    { left. rewrite <- Hone.
      symmetry. apply (dispatch_preserves_oneShot line _ channelId
                         (or_introl Hq) w0 c w' Hrun). }
    destruct ((cmd (ParseScpiLine line) == "START")
              || (cmd (ParseScpiLine line) == "SINGLE")) eqn:Hc.
    2:{ left. rewrite <- Hone.
        symmetry. apply (dispatch_preserves_oneShot line _ channelId
                           (or_intror Hc) w0 c w' Hrun). }
    destruct (ParseScpiLine line) as [sub c0 qy a]. cbn [query cmd] in *.
    subst qy.
    assert (Hc0 : c0 = "START" \/ c0 = "SINGLE").
    { apply orb_true_iff in Hc as [H|H]; apply String.eqb_eq in H; auto. }
    rewrite Hd in Hrun by exact Hc0. unfold bind in Hrun.
    rewrite handle_START_run in Hrun. subst w0. cbn [mem out] in Hrun.
    destruct (g_triggerArmed (mem w)) eqn:Harmed.
    { injection Hrun as _ <-. left. exact Hone. }
    cbv zeta in Hrun.
    destruct (fst (any_channel_on _ _ _)).
    2:{ injection Hrun as _ <-. left. exact Hone. }
    rewrite Start_run in Hrun. cbn [mem out] in Hrun.
    destruct (int64_div _ _) as [q|]; [|discriminate].
    injection Hrun as _ <-. cbn in Hone. right.
    repeat split. now apply String.eqb_eq.
  - intros sub c a channelId q Hc Harmed Hon Hq.
    rewrite Hd by exact Hc. unfold bind.
    rewrite handle_START_run, Harmed. cbv zeta.
    rewrite any_channel_on_some by (destruct Hon as (i & Hi & Hi');
                                    exists i; split; [lia|exact Hi']).
    rewrite Start_run. cbn [mem out g_triggerDelay g_sampleInterval
                             set_g_channelOn].
    rewrite Hq. eexists. split; [reflexivity|]. split; reflexivity.
  - intros sub a channelId. eexists. split; [reflexivity|].
    split; reflexivity.
Qed.

(** The theorem on the bench: after [C1:ON] and [RATE 1000], [SINGLE] is
    admitted and ends armed with the flag set, and [STOP] in that world
    disarms and leaves the flag set. *)
Lemma one_shot_flag_witness :
  exists w1 w2 w3,
    command_loop (E := Sim.bench 4) ["C1:ON"; "RATE 1000"] initial_world
    = Done (tt, w1)
    /\ dispatch (E := Sim.bench 4) "SINGLE"
         {| subject := ""; cmd := "SINGLE"; query := false; args := [] |}
         0 w1
       = Done (Continue, w2)
    /\ g_triggerArmed (mem w2) = true
    /\ g_triggerOneShot (mem w2) = true
    /\ dispatch (E := Sim.bench 4) "STOP"
         {| subject := ""; cmd := "STOP"; query := false; args := [] |}
         0 w2
       = Done (Continue, w3)
    /\ g_triggerArmed (mem w3) = false
    /\ g_triggerOneShot (mem w3) = g_triggerOneShot (mem w2).
Proof.
  eexists. 
  match goal with
  | |- exists w2 w3, ?run = Done (tt, ?w1) /\ _ =>
      assert (Hrun : run = Done (tt, w1)) by (vm_compute; reflexivity)
  end.
  match type of Hrun with
  | _ = Done (tt, ?w1) =>
      destruct (one_shot_flag (Sim.bench 4) "SINGLE" w1) as (_ & Hsingle & _);
      destruct (Hsingle "" "SINGLE" [] 0 0 (or_intror eq_refl) eq_refl)
        as (w2 & Hw2 & Harmed & Hone);
      [ exists 0; split; [simpl; lia | vm_compute; reflexivity]
      | vm_compute; reflexivity
      | ]
  end.
  destruct (one_shot_flag (Sim.bench 4) "STOP" w2) as (_ & _ & Hstop).
  destruct (Hstop "" [] 0) as (w3 & Hw3 & Hdis & Hkeep).
  exists w2, w3.
  split; [exact Hrun|]. split; [exact Hw2|]. split; [exact Harmed|].
  split; [exact Hone|]. split; [exact Hw3|]. split; [exact Hdis|exact Hkeep].
Defined.

(** C5, the claim as written fails on the bench: after [C1:ON],
    [RATE 1000], [SINGLE] and [STOP] the control thread is in a world where
    the one-shot flag is true and the trigger is disarmed; [STOP] did not
    clear the flag. *)
Lemma one_shot_outlives_STOP :
  exists w,
    command_loop (E := Sim.bench 4)
      ["C1:ON"; "RATE 1000"; "SINGLE"; "STOP"] initial_world
    = Done (tt, w)
    /\ reachable (E := Sim.bench 4) w
    /\ g_triggerOneShot (mem w) = true
    /\ g_triggerArmed (mem w) = false.
Proof.
  eexists. split; [vm_compute; reflexivity|].
  split; [|split; reflexivity].
  apply (command_loop_reachable (Sim.bench 4)
           ["C1:ON"; "RATE 1000"; "SINGLE"; "STOP"] initial_world);
    [apply reachable_start|].
  vm_compute. reflexivity.
Qed.

(** ** What the setters leave in memory *)

Section Setters.

Context {E : Env}.

Lemma handle_RATE_run (a : list string) (w : World) :
  handle_RATE a w
  = match Conv.stoull (arg0 a) with
    | Done r =>
        rearm {| mem := set_g_sampleInterval
                          (sample_interval_of_rate (Int.to_int64 r)) (mem w);
                 out := out w
                        ++ check_events (out w)
                             (FDwfAnalogInFrequencySet (Int.to_int64 r))
                             "FDwfAnalogInFrequencySet failed" |}
    | Fault f => Fault f
    end.
Proof.
  unfold handle_RATE, bind at 1. unfold lift at 1.
  destruct (Conv.stoull (arg0 a)) as [r|f]; [|reflexivity].
  cbv zeta. unfold bind at 1. rewrite check_run. reflexivity.
Qed.

Lemma handle_DEPTH_run (a : list string) (w : World) :
  handle_DEPTH a w
  = match Conv.stoull (arg0 a) with
    | Done depth =>
        rearm {| mem := set_g_memDepthChanged true
                          (set_g_memDepth depth (mem w));
                 out := out w
                        ++ check_events (out w)
                             (FDwfAnalogInBufferSizeSet depth)
                             "FDwfAnalogInBufferSizeSet failed" |}
    | Fault f => Fault f
    end.
Proof.
  unfold handle_DEPTH, bind at 1. unfold lift at 1.
  destruct (Conv.stoull (arg0 a)) as [r|f]; [|reflexivity].
  unfold bind at 1 2. unfold modify at 1. cbn beta iota.
  rewrite check_run. reflexivity.
Qed.

Lemma handle_TRIG_LEV_run (a : list string) (w : World) :
  handle_TRIG_LEV a w
  = match stod (arg0 a) with
    | Done v =>
        rearm {| mem := set_g_triggerVoltage v (mem w);
                 out := out w
                        ++ check_events (out w)
                             (FDwfAnalogInTriggerLevelSet v)
                             "FDwfAnalogInTriggerLevelSet failed" |}
    | Fault f => Fault f
    end.
Proof.
  unfold handle_TRIG_LEV, bind at 1. unfold lift at 1.
  destruct (stod (arg0 a)) as [v|f]; [|reflexivity].
  unfold bind at 1 2. unfold modify at 1. cbn beta iota.
  rewrite check_run. reflexivity.
Qed.

Lemma handle_TRIG_SOU_run (a : list string) (w : World) :
  handle_TRIG_SOU a w
  = let t1 : list event :=
      (out w ++ check_events (out w)
                  FDwfAnalogInTriggerSourceSet_trigsrcDetectorAnalogIn
                  "FDwfAnalogInTriggerSourceSet failed")%list in
    let t2 : list event :=
      (t1 ++ check_events t1 (FDwfAnalogInTriggerAutoTimeoutSet 0)
               "FDwfAnalogInTriggerAutoTimeoutSet failed")%list in
    let channel := trigger_channel_of_arg (arg0 a) in
    rearm {| mem := set_g_triggerChannel channel (mem w);
             out := t2 ++ check_events t2
                            (FDwfAnalogInTriggerChannelSet channel)
                            "FDwfAnalogInTriggerChannelSet failed" |}.
Proof.
  unfold handle_TRIG_SOU, bind at 1. rewrite check_run.
  unfold bind at 1. rewrite check_run. cbv zeta.
  unfold bind at 1 2. unfold modify at 1. cbn beta iota.
  rewrite check_run. reflexivity.
Qed.

Lemma handle_TRIG_DELAY_run (a : list string) (w : World) :
  handle_TRIG_DELAY a w
  = match Conv.stoull (arg0 a) with
    | Done d =>
        let delay := Int.to_int64 d in
        let position_fs :=
          trigger_position_fs (g_memDepth (mem w)) (g_sampleInterval (mem w))
                              delay in
        let requested :=
          PrimFloat.mul (Dbl.of_int64 position_fs) SECONDS_PER_FS in
        let t1 : list event :=
          (out w ++ check_events (out w)
                      (FDwfAnalogInTriggerPositionSet requested)
                      "FDwfAnalogInTriggerPositionSet failed")%list in
        let actual := sdk_out1 (sdk t1 FDwfAnalogInTriggerPositionGet) in
        rearm {| mem := set_g_triggerDeltaSec (PrimFloat.sub actual requested)
                          (set_g_triggerDelay delay (mem w));
                 out := t1 ++ check_events t1 FDwfAnalogInTriggerPositionGet
                                "FDwfAnalogInTriggerPositionGet failed" |}
    | Fault f => Fault f
    end.
Proof.
  unfold handle_TRIG_DELAY, bind at 1. unfold lift at 1.
  destruct (Conv.stoull (arg0 a)) as [d|f]; [|reflexivity].
  unfold bind at 1. unfold modify at 1. cbn beta iota.
  unfold bind at 1. unfold get at 1. cbn beta iota zeta.
  cbn [mem out g_memDepth g_sampleInterval g_triggerDelay set_g_triggerDelay].
  unfold bind at 1. rewrite check_run. cbn [mem out].
  set (t1 := (out w ++ check_events (out w) _ _)%list).
  unfold bind at 1. unfold call at 1. cbn beta iota zeta. cbn [mem out].
  unfold bind at 1 2. unfold modify at 1.
  unfold check_events at 1.
  destruct (sdk_ok (sdk t1 FDwfAnalogInTriggerPositionGet)).
  - reflexivity.
  - unfold log, emit. cbn beta iota. cbn [mem out].
    rewrite <- app_assoc. reflexivity.
Qed.

End Setters.

(** ** The trigger delay *)

Lemma to_int64_small (z : Z) : Int.in_int64 z -> Int.to_int64 z = z.
Proof.
  unfold Int.in_int64, Int.INT64_MIN, Int.INT64_MAX, Int.to_int64.
  intros H. rewrite Z.mod_small by lia. lia.
Qed.

Lemma trigger_position_fs_exact (memDepth sampleInterval triggerDelay : Z) :
  0 <= memDepth < 2 ^ 64 ->
  Int.in_int64 (memDepth / 2 * sampleInterval) ->
  Int.in_int64 (memDepth / 2 * sampleInterval - triggerDelay) ->
  trigger_position_fs memDepth sampleInterval triggerDelay
  = memDepth / 2 * sampleInterval - triggerDelay.
Proof.
  intros Hd H1 H2. unfold trigger_position_fs.
  rewrite (to_int64_small (memDepth / 2)).
  2:{ unfold Int.in_int64, Int.INT64_MIN, Int.INT64_MAX.
      assert (0 <= memDepth / 2 < 2 ^ 63); [|lia].
      split; [apply Z.div_pos; lia|].
      apply Z.div_lt_upper_bound; lia. }
  rewrite (to_int64_small _ H1). apply to_int64_small, H2.
Qed.

(** C7 (as the code has it). [TRIG:DELAY] with an argument that reads as
    [d] stores the delay, gives the device the position
    [memoryDepth/2 * sampleIntervalFs - delayFs] femtoseconds converted to
    seconds (the integer arithmetic is exact as long as the product and the
    difference are [int64_t] values), asks the device for the position it
    holds, stores what the device answers less what was requested, and then
    re-arms. With depth 1000, interval 1000 and delay 200000 the position is
    300000 femtoseconds. *)
Theorem TRIG_DELAY_position (E : Env) (a : list string) (d : Z) (w : World) :
  Conv.stoull (arg0 a) = Done d ->
  0 <= g_memDepth (mem w) < 2 ^ 64 ->
  Int.in_int64 (g_memDepth (mem w) / 2 * g_sampleInterval (mem w)) ->
  Int.in_int64 (g_memDepth (mem w) / 2 * g_sampleInterval (mem w)
                - Int.to_int64 d) ->
  let delay := Int.to_int64 d in
  let position_fs :=
    g_memDepth (mem w) / 2 * g_sampleInterval (mem w) - delay in
  let requested := PrimFloat.mul (Dbl.of_int64 position_fs) SECONDS_PER_FS in
  let t1 : list event :=
    (out w ++ check_events (out w)
                (FDwfAnalogInTriggerPositionSet requested)
                "FDwfAnalogInTriggerPositionSet failed")%list in
  let actual := sdk_out1 (sdk t1 FDwfAnalogInTriggerPositionGet) in
  handle_TRIG_DELAY a w
  = rearm {| mem := set_g_triggerDeltaSec (PrimFloat.sub actual requested)
                      (set_g_triggerDelay delay (mem w));
             out := t1 ++ check_events t1 FDwfAnalogInTriggerPositionGet
                            "FDwfAnalogInTriggerPositionGet failed" |}
  /\ trigger_position_fs 1000 1000 200000 = 300000.
Proof.
  intros Hd Hm H1 H2. cbv zeta. split; [|reflexivity].
  rewrite handle_TRIG_DELAY_run, Hd. cbv zeta.
  rewrite (trigger_position_fs_exact _ _ _ Hm H1 H2). reflexivity.
Qed.

(** The theorem on the bench, in the world with depth 1000 and interval
    1000 fs, for the argument [200000]: the device is given 300000 fs in
    seconds, holds 0 s on its grid, and the residual stored is the
    difference. *)
Lemma TRIG_DELAY_position_witness :
  let w := {| mem := set_g_sampleInterval 1000
                       (set_g_memDepth 1000 initial_globals);
              out := [] |} in
  let requested := PrimFloat.mul (Dbl.of_int64 300000) SECONDS_PER_FS in
  let ok := {| sdk_ok := true; sdk_out1 := 0; sdk_out2 := 0 |} in
  handle_TRIG_DELAY (E := Sim.bench 4) ["200000"] w
  = Done (tt, {| mem := set_g_triggerDeltaSec (PrimFloat.sub 0 requested)
                          (set_g_triggerDelay 200000 (mem w));
                 out := [EvSdk (FDwfAnalogInTriggerPositionSet requested) ok;
                         EvSdk FDwfAnalogInTriggerPositionGet ok] |}).
Proof.
  cbv zeta.
  destruct (TRIG_DELAY_position (Sim.bench 4) ["200000"] 200000
              {| mem := set_g_sampleInterval 1000
                          (set_g_memDepth 1000 initial_globals);
                 out := [] |}) as [H _].
  - reflexivity.
  - simpl; lia.
  - vm_compute. split; discriminate.
  - vm_compute. split; discriminate.
  - rewrite H. vm_compute. reflexivity.
Defined.

(** C7, the claim as written fails: with depth 1000, interval 1000 and delay
    200000 the position computed is 300000 femtoseconds, not -300000. *)
Lemma trigger_position_is_not_negative :
  trigger_position_fs 1000 1000 200000 = 1000 / 2 * 1000 - 200000
  /\ trigger_position_fs 1000 1000 200000 <> -300000.
Proof. split; [reflexivity|discriminate]. Qed.

(** ** Failures of the device *)

(** C8. A failing SDK call neither undoes nor prevents a store. [check],
    the form of every checked call of the loop, records the call and, when
    the device reports failure, one line at error verbosity; it changes no
    global. Each of [ON], [OFF], [RATE], [DEPTH], [TRIG:LEV], [TRIG:SOU] and
    [TRIG:DELAY] is the re-arm step run in the world that holds the stored
    value and, in the trace, its checked calls: the value stored is the same
    whether the calls succeed or fail (for the residual of [TRIG:DELAY] it
    is the position read back less the position requested), and what the
    re-arm step leaves in memory depends on the globals alone. On the bench
    whose every call fails, a run of these commands stores every value and
    logs one error line for each of its nine calls. *)
Theorem memory_update_ignores_device_failure (E : Env) (channelId : Z)
  (a : list string) (w : World) :
  let g := mem w in
  let t := out w in
  (forall c msg,
     check c msg w
     = Done (tt, {| mem := g;
                    out := t ++ EvSdk c (sdk t c)
                           :: (if sdk_ok (sdk t c) then []
                               else [EvLog LogError msg]) |}))
  /\ (forall w1, result_mem (rearm w1) = rearm_globals (mem w1))
  /\ handle_ON channelId w
     = rearm {| mem := set_g_memDepthChanged true
                         (set_g_channelOn (<[channelId := true]> (g_channelOn g))
                            g);
                out := t ++ check_events t
                              (FDwfAnalogInChannelEnableSet channelId true)
                              "FDwfAnalogInChannelEnableSet failed" |}
  /\ handle_OFF channelId w
     = rearm {| mem := set_g_memDepthChanged true
                         (set_g_channelOn (<[channelId := true]> (g_channelOn g))
                            g);
                out := t ++ check_events t
                              (FDwfAnalogInChannelEnableSet channelId false)
                              "FDwfAnalogInChannelEnableSet failed" |}
  /\ handle_RATE a w
     = match Conv.stoull (arg0 a) with
       | Done r =>
           rearm {| mem := set_g_sampleInterval
                             (sample_interval_of_rate (Int.to_int64 r)) g;
                    out := t ++ check_events t
                                  (FDwfAnalogInFrequencySet (Int.to_int64 r))
                                  "FDwfAnalogInFrequencySet failed" |}
       | Fault f => Fault f
       end
  /\ handle_DEPTH a w
     = match Conv.stoull (arg0 a) with
       | Done depth =>
           rearm {| mem := set_g_memDepthChanged true (set_g_memDepth depth g);
                    out := t ++ check_events t
                                  (FDwfAnalogInBufferSizeSet depth)
                                  "FDwfAnalogInBufferSizeSet failed" |}
       | Fault f => Fault f
       end
  /\ handle_TRIG_LEV a w
     = match stod (arg0 a) with
       | Done v =>
           rearm {| mem := set_g_triggerVoltage v g;
                    out := t ++ check_events t
                                  (FDwfAnalogInTriggerLevelSet v)
                                  "FDwfAnalogInTriggerLevelSet failed" |}
       | Fault f => Fault f
       end
  /\ handle_TRIG_SOU a w
     = (let t1 : list event :=
          (t ++ check_events t
                  FDwfAnalogInTriggerSourceSet_trigsrcDetectorAnalogIn
                  "FDwfAnalogInTriggerSourceSet failed")%list in
        let t2 : list event :=
          (t1 ++ check_events t1 (FDwfAnalogInTriggerAutoTimeoutSet 0)
                   "FDwfAnalogInTriggerAutoTimeoutSet failed")%list in
        let channel := trigger_channel_of_arg (arg0 a) in
        rearm {| mem := set_g_triggerChannel channel g;
                 out := t2 ++ check_events t2
                                (FDwfAnalogInTriggerChannelSet channel)
                                "FDwfAnalogInTriggerChannelSet failed" |})
  /\ handle_TRIG_DELAY a w
     = match Conv.stoull (arg0 a) with
       | Done d =>
           let delay := Int.to_int64 d in
           let requested :=
             PrimFloat.mul
               (Dbl.of_int64
                  (trigger_position_fs (g_memDepth g) (g_sampleInterval g)
                     delay))
               SECONDS_PER_FS in
           let t1 : list event :=
             (t ++ check_events t (FDwfAnalogInTriggerPositionSet requested)
                     "FDwfAnalogInTriggerPositionSet failed")%list in
           let actual := sdk_out1 (sdk t1 FDwfAnalogInTriggerPositionGet) in
           rearm {| mem := set_g_triggerDeltaSec
                             (PrimFloat.sub actual requested)
                             (set_g_triggerDelay delay g);
                    out := t1 ++ check_events t1 FDwfAnalogInTriggerPositionGet
                                   "FDwfAnalogInTriggerPositionGet failed" |}
       | Fault f => Fault f
       end
  /\ (exists w' : World,
        command_loop (E := Sim.dead_bench 4)
          ["C2:ON"; "DEPTH 1000"; "RATE 1000000000000"; "TRIG:LEV 1.5";
           "TRIG:SOU C2"; "TRIG:DELAY 200000"] initial_world
        = Done (tt, w')
        /\ mem w'
           = {| g_channelOn := {[ 1 := true ]};
                g_memDepth := 1000;
                g_sampleInterval := 1000;
                g_channelOnDuringArm := ∅;
                g_sampleIntervalDuringArm := 0;
                g_captureMemDepth := 0;
                g_triggerArmed := false;
                g_triggerOneShot := false;
                g_memDepthChanged := true;
                g_triggerVoltage := 1.5;
                g_triggerChannel := 1;
                g_triggerSampleIndex := 0;
                g_triggerDelay := 200000;
                g_triggerDeltaSec :=
                  PrimFloat.sub 0
                    (PrimFloat.mul (Dbl.of_int64 300000) SECONDS_PER_FS) |}
        /\ error_lines (out w')
           = ["FDwfAnalogInChannelEnableSet failed";
              "FDwfAnalogInBufferSizeSet failed";
              "FDwfAnalogInFrequencySet failed";
              "FDwfAnalogInTriggerLevelSet failed";
              "FDwfAnalogInTriggerSourceSet failed";
              "FDwfAnalogInTriggerAutoTimeoutSet failed";
              "FDwfAnalogInTriggerChannelSet failed";
              "FDwfAnalogInTriggerPositionSet failed";
              "FDwfAnalogInTriggerPositionGet failed"]
        /\ length (device_calls (out w')) = 9%nat).
Proof.
  cbv zeta. split; [|split; [|split; [|split; [|split; [|split; [|split;
    [|split; [|split]]]]]]]].
  - intros c msg. exact (check_run c msg w).
  - intros w1. apply rearm_mem.
  - apply handle_ON_run.
  - apply handle_OFF_run.
  - apply handle_RATE_run.
  - apply handle_DEPTH_run.
  - apply handle_TRIG_LEV_run.
  - apply handle_TRIG_SOU_run.
  - apply handle_TRIG_DELAY_run.
  - eexists. split; [vm_compute; reflexivity|].
    split; [reflexivity|]. split; vm_compute; reflexivity.
Qed.

(** ** Queries *)

Lemma handle_query_run (E : Env) (line c : string) (w : World) :
  exists evs,
    handle_query line c w
    = Done (tt, {| mem := mem w; out := out w ++ evs |})
    /\ forallb query_event evs = true.
Proof.
  unfold handle_query.
  destruct (c == "*IDN"); [eexists; split; reflexivity|].
  destruct (c == "CHANS"); [eexists; split; reflexivity|].
  destruct (c == "RATES").
  { eexists. split.
    - unfold bind, call, emit. cbn [mem out]. rewrite <- app_assoc.
      reflexivity.
    - reflexivity. }
  destruct (c == "DEPTHS"); eexists; split; reflexivity.
Qed.

(** C10. A line with a question mark anywhere in it changes no global.
    Unless the channel number of its subject cannot be read (then the
    exception of [stoi] ends the process before any branch is taken), the
    line runs the query branch alone: the loop goes on with the globals as
    they were, and the trace grows by the trace line and by events of the
    query branch only. [START?], for one, sends nothing to the device and
    does not arm. *)
Theorem query_changes_no_global (E : Env) (line : string) (w : World) :
  Str.contains "?" line = true ->
  match extract_channel_id (subject (ParseScpiLine line)) with
  | Fault f => process_line line w = Fault f
  | Done _ =>
      exists evs,
        process_line line w
        = Done (Continue, {| mem := mem w; out := out w ++ evs |})
        /\ forallb query_event evs = true
  end
  /\ process_line "START?" w
     = Done (Continue,
             {| mem := mem w;
                out := out w
                       ++ [EvLog LogTrace "START?";
                           EvLog LogDebug
                             "Unrecognized query received: START?"] |}).
Proof.
  intros Hq. split.
  - rewrite process_line_run.
    destruct (extract_channel_id _) as [channelId|f]; [|reflexivity].
    unfold dispatch. rewrite ParseScpiLine_query, Hq. cbv zeta.
    destruct (handle_query_run E line (cmd (ParseScpiLine line))
                {| mem := mem w; out := out w ++ [EvLog LogTrace line] |})
      as (evs & Hrun & Hevs).
    exists (EvLog LogTrace line :: evs). split; [|exact Hevs].
    unfold bind. rewrite Hrun. unfold ret. cbn [mem out].
    now rewrite <- app_assoc.
  - rewrite process_line_run.
    change (extract_channel_id (subject (ParseScpiLine "START?")))
      with (@Done Z 0).
    change (ParseScpiLine "START?")
      with {| subject := ""; cmd := "START"; query := true; args := [] |}.
    unfold dispatch, bind, handle_query, log, emit, ret.
    cbn [query cmd String.eqb Ascii.eqb Bool.eqb mem out].
    now rewrite <- app_assoc.
Qed.

(** The theorem at the lines [C2:START?], whose channel number reads, and
    [C:START?], whose channel number does not. *)
Lemma query_changes_no_global_witness :
  (exists evs,
     process_line (E := Sim.bench 4) "C2:START?" initial_world
     = Done (Continue, {| mem := initial_globals; out := evs |})
     /\ forallb query_event evs = true)
  /\ process_line (E := Sim.bench 4) "C:START?" initial_world
     = Fault std_invalid_argument.
Proof.
  split.
  - destruct (query_changes_no_global (Sim.bench 4) "C2:START?"
                initial_world eq_refl) as [(evs & H & Hevs) _].
    exists evs. split; [exact H | exact Hevs].
  - exact (proj1 (query_changes_no_global (Sim.bench 4) "C:START?"
                    initial_world eq_refl)).
Defined.

(** ** Re-arming *)

Section Rearm.

Context {E : Env}.

Lemma rearms_rearm : rearms rearm.
Proof.
  intros w a w' Harmed. rewrite rearm_run, Harmed, Start_run.
  destruct (int64_div _ _) as [q|] eqn:Hq; [|discriminate].
  intros [= _ <-]. exists w, q. split; [exact Hq|reflexivity].
Qed.

Lemma rearms_bind {A C : Type} (m : M A) (k : A -> M C) :
  preserves g_triggerArmed m -> (forall a, rearms (k a)) ->
  rearms (bind m k).
Proof.
  intros Hm Hk w c w' Harmed. unfold bind.
  destruct (m w) as [[a w1]|f] eqn:Hw; [|discriminate].
  apply Hk. rewrite (Hm _ _ _ Hw). exact Harmed.
Qed.

Ltac rearm_steps :=
  repeat first
    [ apply rearms_rearm
    | apply rearms_bind; [solve [frame]|intros ?]
    | progress cbv zeta ].

(** X1. Each setter of the command loop, [TRIG:MODE] apart, when it starts
    with the trigger armed and returns, has ended with the arm sequence: the
    snapshot of the globals it has reached, and the two calls that start the
    device. *)
Theorem setters_rearm (channelId : Z) (a : list string) :
  rearms (handle_ON channelId)
  /\ rearms (handle_OFF channelId)
  /\ rearms (handle_OFFS channelId a)
  /\ rearms (handle_ATTEN channelId a)
  /\ rearms (handle_RANGE channelId a)
  /\ rearms (handle_RATE a)
  /\ rearms (handle_DEPTH a)
  /\ rearms (handle_TRIG_EDGE_DIR a)
  /\ rearms (handle_TRIG_LEV a)
  /\ rearms (handle_TRIG_SOU a)
  /\ rearms (handle_TRIG_DELAY a).
Proof.
  unfold handle_ON, handle_OFF, handle_OFFS, handle_ATTEN, handle_RANGE,
    handle_RATE, handle_DEPTH, handle_TRIG_EDGE_DIR, handle_TRIG_LEV,
    handle_TRIG_SOU, handle_TRIG_DELAY.
  repeat split; rearm_steps.
Qed.

Lemma armed_globals_live (q : Z) (g : Globals) :
  g_triggerArmed (armed_globals q g) = true
  /\ snapshot_is_live (armed_globals q g).
Proof. repeat split. Qed.

End Rearm.

(** The theorem on the bench: [TRIG:LEV] in an armed world. *)
Lemma setters_rearm_witness :
  let w := {| mem := set_g_triggerArmed true
                       (set_g_sampleInterval 1000 initial_globals);
              out := [] |} in
  exists w1 q,
    int64_div (g_triggerDelay (mem w1)) (g_sampleInterval (mem w1)) = Done q
    /\ handle_TRIG_LEV (E := Sim.bench 4) ["1.5"] w
       = Done (tt, {| mem := armed_globals q (mem w1);
                      out := out w1
                             ++ arm_events (E := Sim.bench 4) (out w1) |}).
Proof.
  cbv zeta.
  set (w := {| mem := set_g_triggerArmed true
                        (set_g_sampleInterval 1000 initial_globals);
               out := [] |}).
  destruct (setters_rearm (E := Sim.bench 4) 0 ["1.5"])
    as (_ & _ & _ & _ & _ & _ & _ & _ & Hlev & _).
  eassert (Hrun : handle_TRIG_LEV (E := Sim.bench 4) ["1.5"] w = Done (tt, _))
    by (vm_compute; reflexivity).
  destruct (Hlev w tt _ eq_refl Hrun) as (w1 & q & Hq & Heq).
  exists w1, q. split; [exact Hq|]. rewrite Hrun, Heq. reflexivity.
Defined.

(** ** The snapshot while armed *)

Section Snapshot.

Context {E : Env}.

Lemma keeps_of_preserves {A : Type} (Q : Globals -> Prop) (m : M A) :
  preserves (fun g => g) m -> keeps Q m.
Proof. intros H w a w' HQ Hrun. now rewrite (H _ _ _ Hrun). Qed.

Lemma keeps_of_ensures {A : Type} (Q : Globals -> Prop) (m : M A) :
  ensures Q m -> keeps Q m.
Proof. intros H w a w' _ Hrun. exact (H _ _ _ Hrun). Qed.

Lemma keeps_then_ret {A C : Type} (Q : Globals -> Prop) (m : M A) (c : C) :
  keeps Q m -> keeps Q (bind m (fun _ => ret c)).
Proof.
  intros H w a w' HQ. unfold bind, ret.
  destruct (m w) as [[x w1]|f] eqn:Hw; [|discriminate].
  intros [= _ <-]. exact (H _ _ _ HQ Hw).
Qed.

Lemma ensures_bind_r {A C : Type} (Q : Globals -> Prop) (m : M A)
  (k : A -> M C) :
  (forall a, ensures Q (k a)) -> ensures Q (bind m k).
Proof.
  intros Hk w c w'. unfold bind.
  destruct (m w) as [[a w1]|f]; [apply Hk|discriminate].
Qed.

Lemma ensures_Start (force : bool) :
  ensures armed_snapshot_live (Start force).
Proof.
  intros w a w'. rewrite Start_run.
  destruct (int64_div _ _) as [q|]; [|discriminate].
  intros [= _ <-] _. apply armed_globals_live.
Qed.

Lemma ensures_rearm : ensures armed_snapshot_live rearm.
Proof.
  intros w a w'. rewrite rearm_run.
  destruct (g_triggerArmed (mem w)) eqn:Harmed; [apply ensures_Start|].
  intros [= _ <-] H. congruence.
Qed.

Lemma ensures_Stop : ensures armed_snapshot_live Stop.
Proof. intros w a w'. rewrite Stop_run. intros [= _ <-] H. discriminate H. Qed.

Lemma keeps_START (c : string) : keeps armed_snapshot_live (handle_START c).
Proof.
  intros w a w' HQ. rewrite handle_START_run.
  destruct (g_triggerArmed (mem w)) eqn:Harmed.
  { intros [= _ <-]. exact HQ. }
  cbv zeta. destruct (fst (any_channel_on _ _ _)).
  - rewrite Start_run. cbn [mem out].
    destruct (int64_div _ _) as [q|]; [|discriminate].
    intros [= _ <-] _. repeat split.
  - intros [= _ <-] H. cbn in H. congruence.
Qed.

Ltac ensures_steps :=
  repeat first
    [ apply ensures_rearm
    | apply ensures_Start
    | apply ensures_Stop
    | apply ensures_bind_r; intros ?
    | progress cbv zeta ].

Lemma dispatch_keeps_snapshot (line : string) (l : scpi_line)
  (channelId : Z) :
  keeps armed_snapshot_live (dispatch line l channelId).
Proof.
  unfold dispatch. cbv zeta.
  repeat match goal with
         | |- keeps _ (if ?b then _ else _) => destruct b
         end;
    try (apply keeps_then_ret);
    try (apply keeps_START);
    try (apply keeps_of_preserves; solve [frame]);
    try (apply keeps_of_preserves; unfold handle_query, handle_unknown;
         solve [frame]);
    try (apply keeps_of_ensures;
         unfold handle_ON, handle_OFF, handle_OFFS, handle_ATTEN,
           handle_RANGE, handle_RATE, handle_DEPTH, handle_FORCE,
           handle_STOP;
         solve [ensures_steps]).
  unfold handle_TRIG.
  repeat match goal with
         | |- keeps _ (if ?b then _ else _) => destruct b
         end;
    try (apply keeps_of_preserves; unfold handle_TRIG_MODE; solve [frame]);
    apply keeps_of_ensures;
    unfold handle_TRIG_EDGE_DIR, handle_TRIG_LEV, handle_TRIG_SOU,
      handle_TRIG_DELAY;
    solve [ensures_steps].
Qed.

End Snapshot.

(** X2. In every world the control thread reaches, an armed trigger comes
    with a snapshot that holds the live channel map, sample interval and
    memory depth. *)
Theorem armed_snapshot_is_live (E : Env) (w : World) :
  reachable w -> armed_snapshot_live (mem w).
Proof.
  induction 1 as [|w r w' Hw IH Hreset|w line c w' Hw IH Hline].
  - intros H. discriminate H.
  - injection Hreset as _ <-. exact IH.
  - rewrite process_line_run in Hline.
    destruct (extract_channel_id _) as [channelId|]; [|discriminate].
    exact (dispatch_keeps_snapshot line _ channelId
             {| mem := mem w; out := out w ++ [EvLog LogTrace line] |}
             _ _ IH Hline).
Qed.

(** The theorem in the world the bench reaches by [C1:ON], [RATE 1000],
    [START] and [DEPTH 500]: armed, with a snapshot depth of 500. *)
Lemma armed_snapshot_is_live_witness :
  exists w,
    command_loop (E := Sim.bench 4)
      ["C1:ON"; "RATE 1000"; "START"; "DEPTH 500"] initial_world
    = Done (tt, w)
    /\ g_triggerArmed (mem w) = true
    /\ g_captureMemDepth (mem w) = 500
    /\ snapshot_is_live (mem w).
Proof.
  eexists. split; [vm_compute; reflexivity|].
  split; [reflexivity|]. split; [reflexivity|].
  apply (armed_snapshot_is_live (Sim.bench 4)); [|reflexivity].
  apply (command_loop_reachable (Sim.bench 4)
           ["C1:ON"; "RATE 1000"; "START"; "DEPTH 500"] initial_world);
    [apply reachable_start|].
  vm_compute. reflexivity.
Defined.

(** * Further properties of the parser *)

Lemma append_empty_l' (s : string) : String.append "" s = s.
Proof. reflexivity. Qed.

Lemma all_push_back (p : ascii -> bool) (s : string) (c : ascii) :
  Str.all p (Str.push_back s c) = Str.all p s && p c.
Proof.
  unfold Str.push_back. induction s as [|d s IH].
  - rewrite append_empty_l'. cbn. now rewrite andb_true_r.
  - rewrite append_cons. cbn [Str.all]. rewrite IH. now rewrite andb_assoc.
Qed.

Lemma parse_init_inv : parse_inv parse_init.
Proof. repeat split; auto. Qed.

Lemma parse_step_inv (st : parse_state) (c : ascii) :
  parse_inv st -> parse_inv (parse_step st c).
Proof.
  intros (Hs & Hc & Ht & Ha & Hsp & He & Hr). unfold parse_step.
  destruct (Ascii.eqb c ":" && Str.is_empty (p_subject st)).
  { unfold parse_inv. cbn [p_subject p_cmd p_tmp p_args p_reading_cmd].
    repeat split; try assumption; try reflexivity; now destruct (He H). }
  destruct (Ascii.eqb c "?") eqn:Hq.
  { unfold parse_inv. cbn [p_subject p_cmd p_tmp p_args p_reading_cmd].
    repeat split; try assumption; now destruct (He H). }
  destruct (negb (Str.isspace c && Str.is_empty (p_cmd st))
            && negb (Ascii.eqb c ",")) eqn:Hk.
  { apply andb_prop in Hk as [Hk1 Hk2].
    assert (Hf : field_char c = true)
      by (unfold field_char; now rewrite Hq, Hk2).
    unfold parse_inv. cbn [p_subject p_cmd p_tmp p_args p_reading_cmd].
    repeat split; try assumption.
    - now rewrite all_push_back, Ht, Hf.
    - rewrite all_push_back. destruct (He H) as [-> _].
      rewrite H, andb_true_r in Hk1. unfold not_space. now rewrite Hk1.
    - now destruct (He H). }
  destruct (Str.is_empty (p_tmp st)) eqn:Hte.
  { unfold parse_inv. auto 10. }
  destruct (p_reading_cmd st) eqn:Hrd.
  - symmetry in Hr. destruct (He Hr) as [Hts Hnil].
    unfold parse_inv. cbn [p_subject p_cmd p_tmp p_args p_reading_cmd].
    repeat split; try assumption; try reflexivity; try congruence.
  - unfold parse_inv. cbn [p_subject p_cmd p_tmp p_args p_reading_cmd].
    repeat split; try assumption; try reflexivity; try congruence.
    apply Forall_app. split; [exact Ha|].
    constructor; [|constructor]. split; assumption.
Qed.

Lemma parse_loop_inv (line : string) (st : parse_state) :
  parse_inv st -> parse_inv (parse_loop line st).
Proof.
  revert st. induction line as [|c line IH]; intros st H; [exact H|].
  cbn [parse_loop]. apply IH, parse_step_inv, H.
Qed.

Lemma parse_step_subject (st : parse_state) (c : ascii) :
  Ascii.eqb c ":" = false -> p_subject (parse_step st c) = p_subject st.
Proof.
  intros Hc. unfold parse_step. rewrite Hc. cbn [andb].
  destruct (Ascii.eqb c "?"); [reflexivity|].
  destruct (_ && _); [reflexivity|].
  destruct (Str.is_empty (p_tmp st)); [reflexivity|].
  now destruct (p_reading_cmd st).
Qed.

Lemma parse_loop_subject (line : string) (st : parse_state) :
  Str.contains ":" line = false ->
  p_subject (parse_loop line st) = p_subject st.
Proof.
  revert st. induction line as [|c line IH]; intros st H; [reflexivity|].
  cbn [parse_loop Str.contains] in *.
  apply orb_false_iff in H as [Hc Hl].
  rewrite IH by exact Hl. apply parse_step_subject, Hc.
Qed.

(** X3. Whatever the line, the fields the parser returns hold no question
    mark and no comma, the command holds no white space, no argument is
    empty, arguments come only with a command, and a line without a colon
    has no subject. *)
Theorem ParseScpiLine_fields (line : string) :
  Str.all field_char (subject (ParseScpiLine line)) = true
  /\ Str.all field_char (cmd (ParseScpiLine line)) = true
  /\ Str.all not_space (cmd (ParseScpiLine line)) = true
  /\ Forall token (args (ParseScpiLine line))
  /\ (Str.is_empty (cmd (ParseScpiLine line)) = true ->
      args (ParseScpiLine line) = [])
  /\ (Str.contains ":" line = false -> subject (ParseScpiLine line) = "").
Proof.
  pose proof (parse_loop_inv line parse_init parse_init_inv)
    as (Hs & Hc & Ht & Ha & Hsp & He & Hr).
  pose proof (parse_loop_subject line parse_init) as Hsub.
  unfold ParseScpiLine, parse_finish.
  destruct (Str.is_empty (p_tmp (parse_loop line parse_init))) eqn:Hte;
    cbn [negb].
  - repeat split; cbn; auto. intros H. now destruct (He H).
  - destruct (Str.is_empty (p_cmd (parse_loop line parse_init))) eqn:Hce;
      cbn [negb].
    + destruct (He eq_refl) as [Hts Hnil].
      repeat split; cbn; auto; try (rewrite Hnil; constructor).
    + repeat split; cbn; auto; try congruence.
      apply Forall_app. split; [exact Ha|].
      constructor; [|constructor]. split; assumption.
Qed.

Lemma parse_loop_args (args : list string) (st : parse_state) :
  Forall token args ->
  Str.is_empty (p_subject st) = false ->
  Str.is_empty (p_cmd st) = false ->
  p_reading_cmd st = false ->
  p_tmp st = "" ->
  parse_finish (parse_loop (join_args args) st)
  = {| subject := p_subject st; cmd := p_cmd st; query := p_query st;
       args := p_args st ++ args |}.
Proof.
  intros Hargs. revert st.
  assert (Hkeep : forall (a : string) (st : parse_state),
    token a -> Str.is_empty (p_subject st) = false ->
    Str.is_empty (p_cmd st) = false ->
    Str.all (kept_in st) a = true).
  { intros a st [Ha _] Hs Hc. apply (all_impl field_char); [|exact Ha].
    intros c Hf. unfold kept_in. rewrite Hs, Hc, !andb_false_r. cbn [negb].
    unfold field_char in Hf. apply andb_prop in Hf as [-> ->]. reflexivity. }
  induction Hargs as [|a rest Ha Hrest IH]; intros st Hs Hc Hr Ht.
  - cbn. unfold parse_finish. rewrite Ht. cbn. now rewrite app_nil_r.
  - destruct rest as [|b rest].
    + cbn [join_args]. rewrite parse_loop_kept by (now apply Hkeep).
      unfold parse_finish, with_tmp. cbn. rewrite Ht, append_empty_l'.
      destruct Ha as [_ Hne]. rewrite Hne, Hc. reflexivity.
    + change (join_args (a :: b :: rest))
        with (String.append a (String "," (join_args (b :: rest)))).
      rewrite parse_loop_app, (parse_loop_kept a st) by (now apply Hkeep).
      cbn [parse_loop]. rewrite Ht.
      set (st1 := parse_step _ _).
      assert (Hst1 : st1 = {| p_subject := p_subject st; p_cmd := p_cmd st;
                              p_query := p_query st;
                              p_args := p_args st ++ [a]; p_tmp := "";
                              p_reading_cmd := false |}).
      { unfold st1, parse_step, with_tmp. cbn.
        rewrite append_empty_l'. destruct Ha as [_ Hne].
        rewrite Hne, Hr. reflexivity. }
      rewrite Hst1, IH by (cbn; auto). cbn. now rewrite <- app_assoc.
Qed.

Lemma parse_loop_subject_colon (SUBJECT rest : string) :
  Str.all subject_char SUBJECT = true ->
  parse_loop (String.append SUBJECT (String ":" rest)) parse_init
  = parse_loop rest
      {| p_subject := SUBJECT; p_cmd := ""; p_query := false; p_args := [];
         p_tmp := ""; p_reading_cmd := true |}.
Proof.
  intros HS. rewrite parse_loop_app.
  rewrite (parse_loop_kept SUBJECT parse_init).
  2:{ apply (all_impl subject_char); [|exact HS].
      intros c Hc. unfold subject_char in Hc. unfold kept_in; simpl.
      apply andb_prop in Hc as [Hc H4]. apply andb_prop in Hc as [Hc H3].
      apply andb_prop in Hc as [H1 H2].
      rewrite H2, H4. apply negb_true_iff in H1, H3. rewrite H1, H3.
      reflexivity. }
  reflexivity.
Qed.

(** X4. A command written as [SUBJECT:CMD ARG,ARG...] is read back field by
    field: for a subject and a command that are not empty and hold no
    separator (a colon is allowed in the command), and arguments that are
    not empty and hold no comma and no question mark (white space and
    colons are allowed), the parser returns that subject, that command, no
    query flag and those arguments in order. *)
Theorem ParseScpiLine_command_line (SUBJECT CMD : string)
  (arguments : list string) :
  Str.is_empty SUBJECT = false ->
  Str.all subject_char SUBJECT = true ->
  Str.is_empty CMD = false ->
  Str.all command_char CMD = true ->
  Forall token arguments ->
  ParseScpiLine (command_line SUBJECT CMD arguments)
  = {| subject := SUBJECT; cmd := CMD; query := false; args := arguments |}.
Proof.
  intros HSne HS HCne HC Hargs.
  unfold ParseScpiLine, command_line.
  rewrite parse_loop_subject_colon by exact HS.
  rewrite parse_loop_app.
  set (st1 := {| p_subject := SUBJECT; p_cmd := ""; p_query := false;
                 p_args := []; p_tmp := ""; p_reading_cmd := true |}).
  rewrite (parse_loop_kept CMD st1).
  2:{ apply (all_impl command_char); [|exact HC].
      intros c Hc. unfold command_char in Hc. unfold kept_in, st1; simpl.
      rewrite HSne, andb_false_r.
      apply andb_prop in Hc as [Hc H3]. apply andb_prop in Hc as [H1 H2].
      rewrite H1, H3. apply negb_true_iff in H2. rewrite H2. reflexivity. }
  cbn [parse_loop].
  set (st2 := parse_step _ _).
  assert (Hst2 : st2 = {| p_subject := SUBJECT; p_cmd := CMD; p_query := false;
                          p_args := []; p_tmp := ""; p_reading_cmd := false |}).
  { unfold st2, parse_step, with_tmp, st1. cbn.
    rewrite append_empty_l', HCne. reflexivity. }
  rewrite Hst2, parse_loop_args by (cbn; auto). reflexivity.
Qed.

(** The theorem at the line [C1:OFFS 1.5, 2]: the space after the comma
    stays in the second argument. *)
Lemma ParseScpiLine_command_line_witness :
  ParseScpiLine "C1:OFFS 1.5, 2"
  = {| subject := "C1"; cmd := "OFFS"; query := false;
       args := ["1.5"; " 2"] |}.
Proof.
  apply (ParseScpiLine_command_line "C1" "OFFS" ["1.5"; " 2"]);
    try reflexivity.
  repeat constructor.
Defined.

(** * Lines on the wire *)

Lemma ScpiRecv_terminated (s rest acc : string) (t : ascii) :
  no_terminator s = true ->
  is_terminator t = true ->
  ScpiRecv (String.append s (String t rest)) acc
  = Some (String.append acc s, rest).
Proof.
  intros Hs Ht. revert acc. induction s as [|c s IH]; intros acc.
  - rewrite append_empty_l', append_empty_r. cbn [ScpiRecv].
    unfold is_terminator in Ht. now rewrite Ht.
  - rewrite append_cons. cbn [ScpiRecv].
    unfold no_terminator in Hs. cbn [Str.all] in Hs.
    apply andb_prop in Hs as [Hc Hs]. apply negb_true_iff in Hc.
    unfold is_terminator in Hc. rewrite Hc.
    rewrite IH by exact Hs. now rewrite append_push_back.
Qed.

Lemma ScpiRecv_unterminated (s acc : string) :
  no_terminator s = true -> ScpiRecv s acc = None.
Proof.
  revert acc. induction s as [|c s IH]; intros acc Hs; [reflexivity|].
  unfold no_terminator in Hs. cbn [Str.all] in Hs.
  apply andb_prop in Hs as [Hc Hs]. apply negb_true_iff in Hc.
  cbn [ScpiRecv]. unfold is_terminator in Hc. rewrite Hc. now apply IH.
Qed.

Lemma ScpiRecv_split_acc (input acc : string) :
  match ScpiRecv input acc with
  | Some (line, rest) =>
      exists body t,
        line = String.append acc body
        /\ no_terminator body = true
        /\ is_terminator t = true
        /\ input = String.append body (String t rest)
  | None => no_terminator input = true
  end.
Proof.
  revert acc. induction input as [|c input IH]; intros acc; [reflexivity|].
  cbn [ScpiRecv]. fold (is_terminator c).
  destruct (is_terminator c) eqn:Hc.
  - exists "", c. rewrite append_empty_r. repeat split; auto.
  - specialize (IH (Str.push_back acc c)).
    destruct (ScpiRecv input (Str.push_back acc c)) as [[line rest]|].
    + destruct IH as (body & t & -> & Hb & Ht & ->).
      exists (String c body), t. rewrite append_push_back.
      repeat split; auto.
      unfold no_terminator. cbn [Str.all]. now rewrite Hc.
    + unfold no_terminator. cbn [Str.all]. now rewrite Hc.
Qed.

(** X5. [ScpiRecv] fails exactly on input that holds no newline and no
    semicolon. When it succeeds, the line it returns holds neither, and the
    input is that line, one terminator, and the rest it leaves unread: no
    byte is lost or invented, and the terminator is not part of the line. *)
Theorem ScpiRecv_split (input : string) :
  match ScpiRecv input "" with
  | Some (line, rest) =>
      no_terminator line = true
      /\ exists t, is_terminator t = true
                   /\ input = String.append line (String t rest)
  | None => no_terminator input = true
  end.
Proof.
  pose proof (ScpiRecv_split_acc input "") as H.
  destruct (ScpiRecv input "") as [[line rest]|]; [|exact H].
  destruct H as (body & t & -> & Hb & Ht & ->).
  rewrite append_empty_l'. split; [exact Hb|]. now exists t.
Qed.

Lemma append_assoc' (a b c : string) :
  String.append (String.append a b) c = String.append a (String.append b c).
Proof.
  induction a as [|d a IH]; [reflexivity|].
  rewrite !append_cons. f_equal. exact IH.
Qed.

(** X6. What [ScpiSend] frames, [ScpiRecv] reads back: for lines without a
    newline or semicolon, the bytes of [ScpiSend] for each of them in turn,
    followed by bytes without a terminator, are received as exactly those
    lines; the unterminated bytes at the end are dropped. *)
Theorem recv_lines_send_all (lines : list string) (tail : string)
  (fuel : nat) :
  Forall (fun l => no_terminator l = true) lines ->
  no_terminator tail = true ->
  (length lines <= fuel)%nat ->
  recv_lines fuel (String.append (send_all lines) tail) = lines.
Proof.
  intros Hlines Htail. revert fuel.
  induction Hlines as [|l rest Hl Hrest IH]; intros fuel Hfuel.
  - cbn [send_all]. rewrite append_empty_l'.
    destruct fuel as [|n]; [reflexivity|].
    cbn [recv_lines]. now rewrite ScpiRecv_unterminated.
  - destruct fuel as [|n]; [cbn in Hfuel; lia|].
    cbn [recv_lines send_all]. unfold ScpiSend.
    rewrite !append_assoc'. rewrite append_cons, append_empty_l'.
    rewrite ScpiRecv_terminated by (exact Hl || reflexivity).
    rewrite append_empty_l'. f_equal. apply IH. cbn in Hfuel. lia.
Qed.

(** The theorem for two replies and a partial third. *)
Lemma recv_lines_send_all_witness :
  recv_lines 2
    (String.append (send_all ["65536,"; "4"]) "Digil")
  = ["65536,"; "4"].
Proof.
  apply (recv_lines_send_all ["65536,"; "4"] "Digil" 2).
  - repeat constructor.
  - reflexivity.
  - simpl. lia.
Defined.

(** * The channel number of any subject *)

(** X7. On a device with [N >= 0] channels the channel number taken from
    a subject, whatever the subject, lies between 0 and [N], [N] itself
    included; the extraction fails only for a subject that starts with [C]
    or [c] and whose remainder [stoi] rejects. A subject that does not start
    with [C] or [c] gives channel 0, and a subject [C<n>] with [n <= 0]
    gives [N] (the subtraction wraps around before the clamp). *)
Theorem extract_channel_id_range (E : Env) (subject : string) :
  0 <= g_numAnalogInChannels ->
  match extract_channel_id subject with
  | Done channelId => 0 <= channelId <= g_numAnalogInChannels
  | Fault f =>
      Ascii.eqb (Str.toupper (Str.at_ subject 0)) "C" = true
      /\ Conv.stoi (Str.tail subject) = Fault f
  end
  /\ (Ascii.eqb (Str.toupper (Str.at_ subject 0)) "C" = false ->
      extract_channel_id subject = Done 0)
  /\ (forall n,
        Ascii.eqb (Str.toupper (Str.at_ subject 0)) "C" = true ->
        Conv.stoi (Str.tail subject) = Done n ->
        Int.INT_MIN < n <= 0 ->
        g_numAnalogInChannels <= 2 ^ 64 - 2 ^ 31 ->
        extract_channel_id subject = Done g_numAnalogInChannels).
Proof.
  intros HN. unfold extract_channel_id. split; [|split].
  - destruct (Ascii.eqb _ _); [|lia].
    destruct (Conv.stoi _) as [n|f]; [|auto].
    unfold Int.to_size_t.
    pose proof (Z.mod_pos_bound (Int.to_int32 (n - 1)) (2 ^ 64)). lia.
  - now intros ->.
  - intros n -> -> Hn Hmax. f_equal.
    unfold Int.to_size_t, Int.to_int32, Int.INT_MIN in *.
    rewrite (Z.mod_small (n - 1 + 2 ^ 31)) by lia.
    replace (n - 1 + 2 ^ 31 - 2 ^ 31) with (n - 1) by lia.
    rewrite <- (Z.mod_add _ 1) by lia.
    rewrite Z.mod_small by lia. lia.
Qed.

(** The theorem on the bench with four channels: [C0] gives channel 4,
    [c3] channel 2, [TRIG] channel 0. *)
Lemma extract_channel_id_range_witness :
  extract_channel_id (E := Sim.bench 4) "C0" = Done 4
  /\ extract_channel_id (E := Sim.bench 4) "c3" = Done 2
  /\ extract_channel_id (E := Sim.bench 4) "TRIG" = Done 0.
Proof.
  destruct (extract_channel_id_range (Sim.bench 4) "C0") as (_ & _ & H0);
    [simpl; lia|].
  destruct (extract_channel_id_range (Sim.bench 4) "TRIG") as (_ & HT & _);
    [simpl; lia|].
  split; [|split].
  - apply (H0 0); [reflexivity|reflexivity|unfold Int.INT_MIN; lia|simpl; lia].
  - reflexivity.
  - apply HT. reflexivity.
Defined.

(** * What a command sends *)

Section Trace.

Context {E : Env} (P : event -> bool).

Lemma emits_ret {A : Type} (a : A) : emits P (ret a).
Proof.
  intros w a' w' [= _ <-]. exists []. now rewrite app_nil_r.
Qed.

Lemma emits_bind {A C : Type} (m : M A) (k : A -> M C) :
  emits P m -> (forall a, emits P (k a)) -> emits P (bind m k).
Proof.
  intros Hm Hk w c w'. unfold bind.
  destruct (m w) as [[a w1]|f] eqn:Hw; [|discriminate].
  intros H. destruct (Hm _ _ _ Hw) as (e1 & H1 & P1).
  destruct (Hk _ _ _ _ H) as (e2 & H2 & P2).
  exists (e1 ++ e2)%list. rewrite H2, H1, <- app_assoc. split; [reflexivity|].
  now rewrite forallb_app, P1, P2.
Qed.

Lemma emits_lift {A : Type} (r : result A) : emits P (lift r).
Proof.
  intros w a w'. unfold lift. destruct r; [|discriminate].
  intros [= _ <-]. exists []. now rewrite app_nil_r.
Qed.

Lemma emits_get : emits P get.
Proof. intros w a w' [= _ <-]. exists []. now rewrite app_nil_r. Qed.

Lemma emits_modify (h : Globals -> Globals) : emits P (modify h).
Proof. intros w a w' [= _ <-]. exists []. cbn. now rewrite app_nil_r. Qed.

Lemma emits_emit (e : event) : P e = true -> emits P (emit e).
Proof.
  intros He w a w' [= _ <-]. exists [e]. cbn. now rewrite He.
Qed.

Lemma emits_call (c : sdk_call) :
  (forall r, P (EvSdk c r) = true) -> emits P (call c).
Proof.
  intros Hc w a w' [= _ <-]. eexists. cbn. split; [reflexivity|].
  cbn. now rewrite Hc.
Qed.

Lemma emits_check (c : sdk_call) (msg : string) :
  (forall r, P (EvSdk c r) = true) -> P (EvLog LogError msg) = true ->
  emits P (check c msg).
Proof.
  intros Hc Hl w a w'. rewrite check_run. intros [= _ <-].
  eexists. cbn. split; [reflexivity|]. unfold check_events. cbn.
  rewrite Hc. destruct (sdk_ok _); cbn; [reflexivity|]. now rewrite Hl.
Qed.

Lemma emits_log_args (a : list string) :
  (forall msg, P (EvLog LogDebug msg) = true) -> emits P (log_args a).
Proof.
  intros Hl. induction a as [|x a IH]; cbn [log_args fold_right].
  - apply emits_ret.
  - apply emits_bind; [apply emits_emit, Hl|intros _; exact IH].
Qed.

End Trace.

Ltac trace_step :=
  first
    [ apply emits_ret
    | apply emits_lift
    | apply emits_get
    | apply emits_modify
    | apply emits_log_args; intros ?; reflexivity
    | apply emits_check; [intros ?; reflexivity|reflexivity]
    | apply emits_call; intros ?; reflexivity
    | apply emits_emit; reflexivity
    | apply emits_bind; [|intros ?]
    | match goal with
      | |- emits _ (if ?b then _ else _) => destruct b
      | |- emits _ (let _ := _ in _) => cbv zeta
      | |- emits _ (let '(_, _) := ?x in _) => destruct x
      end ].

Ltac trace := repeat trace_step.

Lemma replies_app (a b : list event) :
  replies (a ++ b) = (replies a + replies b)%nat.
Proof.
  induction a as [|e a IH]; [reflexivity|].
  cbn [app replies]. rewrite IH. lia.
Qed.

Lemma replies_none (evs : list event) :
  forallb (fun e => negb (is_send e)) evs = true -> replies evs = O.
Proof.
  induction evs as [|e evs IH]; [reflexivity|].
  cbn [forallb replies]. intros H. apply andb_prop in H as [He Hr].
  apply negb_true_iff in He. rewrite He, IH by exact Hr. reflexivity.
Qed.

Lemma dispatch_command_sends_nothing (E : Env) (line : string)
  (l : scpi_line) (channelId : Z) :
  query l = false ->
  emits (fun e => negb (is_send e)) (dispatch line l channelId).
Proof.
  intros Hq. unfold dispatch. rewrite Hq. cbv zeta.
  unfold handle_ON, handle_OFF, handle_OFFS, handle_ATTEN, handle_RANGE,
    handle_RATE, handle_DEPTH, handle_START, handle_FORCE, handle_STOP, Stop,
    handle_TRIG, handle_TRIG_MODE, handle_TRIG_EDGE_DIR, handle_TRIG_LEV,
    handle_TRIG_SOU, handle_TRIG_DELAY, handle_unknown, rearm, Start, log.
  trace.
Qed.

(** X8. Only queries are answered, and at most once: a line that is
    processed adds one reply to the trace when it holds a question mark and
    its command is [*IDN], [CHANS], [RATES] or [DEPTHS], and none in every
    other case; no command without a question mark and no unknown query is
    ever answered. *)
Theorem reply_count (E : Env) (line : string) (w : World) (c : loop_ctl)
  (w' : World) :
  process_line line w = Done (c, w') ->
  replies (out w')
  = (replies (out w)
     + (if query (ParseScpiLine line) && known_query (cmd (ParseScpiLine line))
        then 1 else 0))%nat.
Proof.
  rewrite process_line_run.
  destruct (extract_channel_id _) as [channelId|]; [|discriminate].
  destruct (query (ParseScpiLine line)) eqn:Hq; cbn [andb].
  - unfold dispatch. rewrite Hq. cbv zeta. unfold handle_query, known_query.
    destruct (_ == "*IDN"); cbn [orb].
    { intros [= _ <-]. cbn [out]. rewrite !replies_app. cbn. lia. }
    destruct (_ == "CHANS"); cbn [orb].
    { intros [= _ <-]. cbn [out]. rewrite !replies_app. cbn. lia. }
    destruct (_ == "RATES"); cbn [orb].
    { intros [= _ <-]. cbn [out]. rewrite !replies_app. cbn. lia. }
    destruct (_ == "DEPTHS"); cbn [orb].
    { intros [= _ <-]. cbn [out]. rewrite !replies_app. cbn. lia. }
    intros [= _ <-]. cbn [out]. rewrite !replies_app. cbn. lia.
  - intros Hrun.
    destruct (dispatch_command_sends_nothing E line _ channelId Hq _ _ _ Hrun)
      as (evs & Hout & Hevs).
    rewrite Hout. cbn [out]. rewrite !replies_app, (replies_none evs Hevs).
    cbn. lia.
Qed.

(** The theorem on the bench: [CHANS?] is answered once, [START?] and
    [C1:ON] are not answered. *)
Lemma reply_count_witness :
  exists w0 w1 w2,
    process_line (E := Sim.bench 4) "CHANS?" initial_world
    = Done (Continue, w0)
    /\ replies (out w0) = 1%nat
    /\ process_line (E := Sim.bench 4) "START?" initial_world
       = Done (Continue, w1)
    /\ replies (out w1) = O
    /\ process_line (E := Sim.bench 4) "C1:ON" initial_world
       = Done (Continue, w2)
    /\ replies (out w2) = O.
Proof.
  do 3 eexists.
  split; [vm_compute; reflexivity|]. split.
  { eapply (reply_count (Sim.bench 4) "CHANS?" initial_world Continue).
    vm_compute. reflexivity. }
  split; [vm_compute; reflexivity|]. split.
  { eapply (reply_count (Sim.bench 4) "START?" initial_world Continue).
    vm_compute. reflexivity. }
  split; [vm_compute; reflexivity|].
  eapply (reply_count (Sim.bench 4) "C1:ON" initial_world Continue).
  vm_compute. reflexivity.
Defined.

(** * Commands that are ignored, and [EXIT] *)

Lemma log_args_run (a : list string) (w : World) :
  exists evs,
    log_args a w = Done (tt, {| mem := mem w; out := out w ++ evs |})
    /\ forallb is_debug_log evs = true.
Proof.
  revert w. induction a as [|x a IH]; intros w.
  - exists []. cbn. rewrite app_nil_r. now destruct w.
  - change (log_args (x :: a) w)
      with (log_args a {| mem := mem w;
                          out := out w ++ [EvLog LogDebug
                                             (String.append "Arg: " x)] |}).
    destruct (IH {| mem := mem w;
                    out := out w ++ [EvLog LogDebug
                                       (String.append "Arg: " x)] |})
      as (evs & Hrun & Hevs).
    rewrite Hrun. cbn [mem out].
    exists (EvLog LogDebug (String.append "Arg: " x) :: evs).
    rewrite <- app_assoc. split; [reflexivity|exact Hevs].
Qed.

Lemma dispatch_wrong_argument_count (E : Env) (line : string)
  (l : scpi_line) (channelId : Z) (w : World) :
  query l = false ->
  argless_command (cmd l) = false ->
  one_arg (args l) = false ->
  exists evs,
    dispatch line l channelId w
    = Done (Continue, {| mem := mem w; out := out w ++ evs |})
    /\ forallb is_debug_log evs = true.
Proof.
  intros Hq Hc Ha. unfold argless_command in Hc.
  repeat (apply orb_false_iff in Hc as [Hc ?]).
  unfold dispatch. cbv zeta. rewrite Hq, Ha, !andb_false_r.
  repeat match goal with
         | H : (cmd l == _) = false |- _ => rewrite H; clear H
         end.
  cbn [orb]. unfold handle_TRIG, handle_unknown. rewrite Ha, !andb_false_r.
  unfold bind, log, emit, ret. cbn [mem out].
  destruct (subject l == "TRIG").
  - destruct (log_args_run (args l)
                {| mem := mem w;
                   out := (out w ++ [EvLog LogDebug
     (String.append "Unrecognized trigger command received: " line)])
                          ++ [EvLog LogDebug
                                (String.append "Command: " (cmd l))] |})
      as (evs & Hrun & Hevs).
    rewrite Hrun. cbn [mem out]. eexists.
    rewrite <- !app_assoc. split; [reflexivity|]. exact Hevs.
  - destruct (log_args_run (args l)
                {| mem := mem w;
                   out := ((out w ++ [EvLog LogDebug
     (String.append "Unrecognized command received: " line)])
                           ++ [EvLog LogDebug
                                 (String.append "Subject: " (subject l))])
                          ++ [EvLog LogDebug
                                (String.append "Command: " (cmd l))] |})
      as (evs & Hrun & Hevs).
    rewrite Hrun. cbn [mem out]. eexists.
    rewrite <- !app_assoc. split; [reflexivity|]. exact Hevs.
Qed.

(** X9. A line without a question mark whose command is none of [EXIT],
    [ON], [OFF], [START], [SINGLE], [FORCE], [STOP], and which does not
    carry exactly one argument, is ignored whatever it says. When the
    channel number of its subject cannot be read, the exception of [stoi]
    ends the process, as for every line. Otherwise the line is processed
    and the loop goes on with the lines that follow: no global has changed,
    nothing has been sent to the device or the client, and the trace has
    grown by the trace line and by debug lines only. So a setter with a
    missing or a second argument ([RATE], [DEPTH 1,2], [TRIG:LEV]) has no
    effect, and its absent argument is never read. *)
Theorem wrong_argument_count_is_ignored (E : Env) (line : string)
  (rest : list string) (w : World) :
  query (ParseScpiLine line) = false ->
  argless_command (cmd (ParseScpiLine line)) = false ->
  one_arg (args (ParseScpiLine line)) = false ->
  match extract_channel_id (subject (ParseScpiLine line)) with
  | Fault f => process_line line w = Fault f
  | Done _ =>
      exists evs,
        forallb is_debug_log evs = true
        /\ process_line line w
           = Done (Continue,
                   {| mem := mem w;
                      out := out w ++ EvLog LogTrace line :: evs |})
        /\ command_loop (line :: rest) w
           = command_loop rest
               {| mem := mem w;
                  out := out w ++ EvLog LogTrace line :: evs |}
  end.
Proof.
  intros Hq Hc Ha.
  assert (Hrun := process_line_run line w).
  destruct (extract_channel_id _) as [channelId|f]; [|exact Hrun].
  destruct (dispatch_wrong_argument_count E line (ParseScpiLine line)
              channelId
              {| mem := mem w; out := out w ++ [EvLog LogTrace line] |}
              Hq Hc Ha) as (evs & Hd & Hevs).
  cbn [mem out] in Hd. rewrite <- app_assoc in Hd. cbn [app] in Hd.
  rewrite Hd in Hrun. exists evs. split; [exact Hevs|].
  split; [exact Hrun|].
  cbn [command_loop]. unfold bind. rewrite Hrun. reflexivity.
Qed.

(** The theorem at the lines [RATE] and [DEPTH 1,2] in the first world, each
    followed by a [STOP] that is then run, and at [C:RATE], whose channel
    number does not read. *)
Lemma wrong_argument_count_is_ignored_witness :
  (exists evs,
     process_line (E := Sim.bench 4) "RATE" initial_world
     = Done (Continue, {| mem := initial_globals;
                          out := EvLog LogTrace "RATE" :: evs |})
     /\ command_loop (E := Sim.bench 4) ["RATE"; "STOP"] initial_world
        = command_loop (E := Sim.bench 4) ["STOP"]
            {| mem := initial_globals;
               out := EvLog LogTrace "RATE" :: evs |})
  /\ (exists evs,
        process_line (E := Sim.bench 4) "DEPTH 1,2" initial_world
        = Done (Continue, {| mem := initial_globals;
                             out := EvLog LogTrace "DEPTH 1,2" :: evs |}))
  /\ process_line (E := Sim.bench 4) "C:RATE" initial_world
     = Fault std_invalid_argument.
Proof.
  split; [|split].
  - destruct (wrong_argument_count_is_ignored (Sim.bench 4) "RATE" ["STOP"]
                initial_world eq_refl eq_refl eq_refl) as (evs & _ & H & Hl).
    exists evs. split; [exact H | exact Hl].
  - destruct (wrong_argument_count_is_ignored (Sim.bench 4) "DEPTH 1,2" []
                initial_world eq_refl eq_refl eq_refl) as (evs & _ & H & _).
    exists evs. exact H.
  - exact (wrong_argument_count_is_ignored (Sim.bench 4) "C:RATE" []
             initial_world eq_refl eq_refl eq_refl).
Defined.

Lemma process_line_EXIT (E : Env) (e : string) (w : World) :
  query (ParseScpiLine e) = false ->
  cmd (ParseScpiLine e) = "EXIT" ->
  process_line e w
  = match extract_channel_id (subject (ParseScpiLine e)) with
    | Done _ =>
        Done (Break, {| mem := mem w; out := out w ++ [EvLog LogTrace e] |})
    | Fault f => Fault f
    end.
Proof.
  intros Hq Hc. rewrite process_line_run.
  destruct (extract_channel_id _); [|reflexivity].
  unfold dispatch. rewrite Hq, Hc. reflexivity.
Qed.

(** X10. [EXIT] ends the command loop at once: a line without a question
    mark whose command is [EXIT] changes no global and sends nothing to the
    device, and whatever lines follow it on the connection are never
    processed. *)
Theorem EXIT_ends_the_loop (E : Env) (before after : list string)
  (e : string) (w : World) :
  query (ParseScpiLine e) = false ->
  cmd (ParseScpiLine e) = "EXIT" ->
  command_loop (before ++ e :: after) w = command_loop (before ++ [e]) w
  /\ process_line e w
     = match extract_channel_id (subject (ParseScpiLine e)) with
       | Done _ =>
           Done (Break,
                 {| mem := mem w; out := out w ++ [EvLog LogTrace e] |})
       | Fault f => Fault f
       end.
Proof.
  intros Hq Hc. split; [|now apply process_line_EXIT].
  revert w. induction before as [|line before IH]; intros w.
  - cbn [app command_loop]. unfold bind.
    rewrite (process_line_EXIT E e w Hq Hc).
    now destruct (extract_channel_id _).
  - cbn [app command_loop]. unfold bind.
    destruct (process_line line w) as [[[] w1]|f]; auto.
Qed.

(** The theorem on the bench: the [FORCE] after [EXIT], which would divide
    by zero, is not run. *)
Lemma EXIT_ends_the_loop_witness :
  command_loop (E := Sim.bench 4) ["C1:ON"; "EXIT"; "FORCE"] initial_world
  = command_loop (E := Sim.bench 4) ["C1:ON"; "EXIT"] initial_world
  /\ process_line (E := Sim.bench 4) "EXIT" initial_world
     = Done (Break, {| mem := initial_globals;
                       out := [EvLog LogTrace "EXIT"] |}).
Proof.
  exact (EXIT_ends_the_loop (Sim.bench 4) ["C1:ON"] ["FORCE"] "EXIT"
           initial_world eq_refl eq_refl).
Defined.

(** * Setters that store nothing *)

Section DeviceOnly.

Context {E : Env}.

Lemma lift_check_rearm_mem (r : result float) (c : float -> sdk_call)
  (msg : string) (w : World) :
  result_mem
    (bind (lift r) (fun v => bind (check (c v) msg) (fun _ => rearm)) w)
  = match r with
    | Done _ => rearm_globals (mem w)
    | Fault f => Fault f
    end.
Proof.
  unfold bind at 1. unfold lift. destruct r as [v|f]; [|reflexivity].
  unfold bind. rewrite check_run, rearm_mem. reflexivity.
Qed.

(** X11. [OFFS], [ATTEN], [RANGE], [TRIG:EDGE:DIR] and [TRIG:MODE] keep
    nothing in memory: the value goes to the device and is gone. What the
    first four leave in the globals is the re-arm step on the globals they
    found (nothing at all when disarmed), [TRIG:MODE] leaves the globals as
    they are, and an argument [stod] rejects ends the process before
    anything is sent. *)
Theorem device_only_setters (channelId : Z) (a : list string) (w : World) :
  result_mem (handle_OFFS channelId a w)
  = match stod (arg0 a) with
    | Done _ => rearm_globals (mem w)
    | Fault f => Fault f
    end
  /\ result_mem (handle_ATTEN channelId a w)
     = match stod (arg0 a) with
       | Done _ => rearm_globals (mem w)
       | Fault f => Fault f
       end
  /\ result_mem (handle_RANGE channelId a w)
     = match stod (arg0 a) with
       | Done _ => rearm_globals (mem w)
       | Fault f => Fault f
       end
  /\ result_mem (handle_TRIG_EDGE_DIR a w) = rearm_globals (mem w)
  /\ result_mem (handle_TRIG_MODE a w) = Done (mem w)
  /\ (forall f, stod (arg0 a) = Fault f ->
        handle_OFFS channelId a w = Fault f
        /\ handle_ATTEN channelId a w = Fault f
        /\ handle_RANGE channelId a w = Fault f).
Proof.
  split; [apply lift_check_rearm_mem|].
  split; [apply lift_check_rearm_mem|].
  split; [apply lift_check_rearm_mem|].
  split; [|split].
  - unfold handle_TRIG_EDGE_DIR. cbv zeta. unfold bind.
    rewrite check_run, rearm_mem. reflexivity.
  - unfold handle_TRIG_MODE.
    destruct (arg0 a == "EDGE"); [now rewrite check_run|reflexivity].
  - intros f Hf.
    unfold handle_OFFS, handle_ATTEN, handle_RANGE, bind, lift.
    rewrite Hf. auto.
Qed.

(** X12. Arming an armed trigger again changes no global: after [Start]
    has returned, a second [Start], and so the re-arm step, returns too and
    leaves every global, snapshot and sample index included, as the first
    left it; only the two device calls are repeated. *)
Theorem Start_twice (force force' : bool) (w w1 : World) :
  Start force w = Done (tt, w1) ->
  Start force' w1
  = Done (tt, {| mem := mem w1; out := out w1 ++ arm_events (out w1) |})
  /\ rearm w1
     = Done (tt, {| mem := mem w1; out := out w1 ++ arm_events (out w1) |}).
Proof.
  rewrite Start_run.
  destruct (int64_div _ _) as [q|] eqn:Hq; [|discriminate].
  intros [= <-].
  assert (H : forall f : bool,
              Start f
                {| mem := armed_globals q (mem w);
                   out := out w ++ arm_events (out w) |}
              = Done (tt, {| mem := armed_globals q (mem w);
                             out := (out w ++ arm_events (out w))
                                    ++ arm_events
                                         (out w ++ arm_events (out w)) |})).
  { intros f. rewrite Start_run. cbn [mem out].
    change (g_triggerDelay (armed_globals q (mem w)))
      with (g_triggerDelay (mem w)).
    change (g_sampleInterval (armed_globals q (mem w)))
      with (g_sampleInterval (mem w)).
    rewrite Hq. reflexivity. }
  split; [exact (H force')|].
  rewrite rearm_run. cbn [mem].
  change (g_triggerArmed (armed_globals q (mem w))) with true.
  exact (H false).
Qed.

End DeviceOnly.

(** The theorem on the bench: [FORCE] twice, with a sample interval of
    1000 fs. *)
Lemma Start_twice_witness :
  exists w1 w2,
    Start (E := Sim.bench 4) true
      {| mem := set_g_sampleInterval 1000 initial_globals; out := [] |}
    = Done (tt, w1)
    /\ Start (E := Sim.bench 4) true w1 = Done (tt, w2)
    /\ mem w2 = mem w1.
Proof.
  eexists. eexists.
  split; [vm_compute; reflexivity|].
  match goal with
  | |- Start true ?w1 = _ /\ _ =>
      destruct (Start_twice (E := Sim.bench 4) true true
                  {| mem := set_g_sampleInterval 1000 initial_globals;
                     out := [] |} w1) as [H _];
      [vm_compute; reflexivity|]
  end.
  split; [exact H|reflexivity].
Defined.

(** * Channels that are on stay on *)

Section Enabled.

Context {E : Env}.

Lemma keeps_bind {A C : Type} (Q : Globals -> Prop) (m : M A)
  (k : A -> M C) :
  keeps Q m -> (forall a, keeps Q (k a)) -> keeps Q (bind m k).
Proof.
  intros Hm Hk w c w' HQ. unfold bind.
  destruct (m w) as [[a w1]|f] eqn:Hw; [|discriminate].
  apply Hk. exact (Hm _ _ _ HQ Hw).
Qed.

Lemma keeps_modify (Q : Globals -> Prop) (h : Globals -> Globals) :
  (forall g, Q g -> Q (h g)) -> keeps Q (modify h).
Proof. intros Hh w a w' HQ [= _ <-]. apply Hh, HQ. Qed.

Lemma keeps_of_component {A B : Type} (f : Globals -> B) (Q : B -> Prop)
  (m : M A) :
  preserves f m -> keeps (fun g => Q (f g)) m.
Proof. intros H w a w' HQ Hrun. now rewrite (H _ _ _ Hrun). Qed.

Lemma any_channel_on_same_flags (count : nat) (first : Z) (m : gmap Z bool) :
  same_flags m (snd (any_channel_on count first m)).
Proof.
  revert first m. induction count as [|k IH]; intros first m i;
    [reflexivity|].
  cbn [any_channel_on].
  pose proof (map_subscript_same_flags m first) as Hsame.
  destruct (map_subscript m first) as [b m']. cbn [snd] in Hsame.
  destruct b; cbn [snd]; [apply Hsame|].
  rewrite IH. apply Hsame.
Qed.

Lemma channel_enabled_insert_true (m : gmap Z bool) (channelId i : Z) :
  channel_enabled m i = true ->
  channel_enabled (<[channelId := true]> m) i = true.
Proof.
  unfold channel_enabled, map_subscript.
  destruct (decide (channelId = i)) as [->|Hne].
  - now rewrite lookup_insert_eq.
  - rewrite lookup_insert_ne by exact Hne.
    now destruct (m !! i).
Qed.

Lemma dispatch_keeps_enabled (line : string) (l : scpi_line)
  (channelId i : Z) :
  keeps (fun g => channel_enabled (g_channelOn g) i = true)
        (dispatch line l channelId).
Proof.
  unfold dispatch. cbv zeta.
  repeat match goal with
         | |- keeps _ (if ?b then _ else _) => destruct b
         end;
    try (apply (keeps_of_component g_channelOn
                  (fun m => channel_enabled m i = true));
         unfold handle_query, handle_OFFS, handle_ATTEN, handle_RANGE,
           handle_RATE, handle_DEPTH, handle_FORCE, handle_STOP, Stop,
           handle_TRIG, handle_TRIG_MODE, handle_TRIG_EDGE_DIR,
           handle_TRIG_LEV, handle_TRIG_SOU, handle_TRIG_DELAY,
           handle_unknown;
         solve [frame]);
    apply keeps_then_ret.
  - unfold handle_ON. apply keeps_bind.
    + apply keeps_modify. intros g. apply channel_enabled_insert_true.
    + intros _.
      apply (keeps_of_component g_channelOn
               (fun m => channel_enabled m i = true)).
      frame.
  - unfold handle_OFF. apply keeps_bind.
    + apply keeps_modify. intros g. apply channel_enabled_insert_true.
    + intros _.
      apply (keeps_of_component g_channelOn
               (fun m => channel_enabled m i = true)).
      frame.
  - intros w a w' HQ. rewrite handle_START_run.
    destruct (g_triggerArmed (mem w)); [intros [= _ <-]; exact HQ|].
    cbv zeta.
    pose proof (any_channel_on_same_flags (Z.to_nat g_numAnalogInChannels) 0
                  (g_channelOn (mem w)) i) as Hsame.
    destruct (fst (any_channel_on _ _ _)).
    + rewrite Start_run. cbn [mem out].
      destruct (int64_div _ _); [|discriminate].
      intros [= _ <-]. cbn. rewrite Hsame. exact HQ.
    + intros [= _ <-]. cbn. rewrite Hsame. exact HQ.
Qed.

End Enabled.

(** X13. No line ever turns a channel off in memory: if a channel reads as
    enabled before a line is processed, it reads as enabled after it,
    whatever the line ([OFF] included, which stores [true]; every other
    command leaves the flags it finds). *)
Theorem enabled_channel_stays_enabled (E : Env) (line : string) (w : World)
  (c : loop_ctl) (w' : World) (i : Z) :
  process_line line w = Done (c, w') ->
  channel_enabled (g_channelOn (mem w)) i = true ->
  channel_enabled (g_channelOn (mem w')) i = true.
Proof.
  rewrite process_line_run.
  destruct (extract_channel_id _) as [channelId|]; [|discriminate].
  intros Hrun HQ.
  exact (dispatch_keeps_enabled line _ channelId i
           {| mem := mem w; out := out w ++ [EvLog LogTrace line] |}
           _ _ HQ Hrun).
Qed.

(** The theorem on the bench: channel 0, turned on by [C1:ON], is on after
    [C1:OFF]. *)
Lemma enabled_channel_stays_enabled_witness :
  exists w1 w2,
    process_line (E := Sim.bench 4) "C1:ON" initial_world
    = Done (Continue, w1)
    /\ process_line (E := Sim.bench 4) "C1:OFF" w1 = Done (Continue, w2)
    /\ channel_enabled (g_channelOn (mem w2)) 0 = true.
Proof.
  do 2 eexists. split; [vm_compute; reflexivity|].
  match goal with
  | |- process_line "C1:OFF" ?w1 = Done (Continue, ?w2) /\ _ =>
      assert (Hrun : process_line (E := Sim.bench 4) "C1:OFF" w1
                     = Done (Continue, w2)) by (vm_compute; reflexivity)
  end.
  split; [exact Hrun|].
  apply (enabled_channel_stays_enabled (Sim.bench 4) "C1:OFF" _ _ _ 0 Hrun).
  vm_compute. reflexivity.
Defined.

(** * The integer globals stay in their types *)

Lemma digits_nonneg (s : string) (acc : option Z) (m : Z) :
  (forall a, acc = Some a -> 0 <= a) ->
  Conv.digits s acc = Some m -> 0 <= m.
Proof.
  revert acc. induction s as [|c s IH]; intros acc Hacc; cbn [Conv.digits].
  - intros H. apply Hacc, H.
  - destruct (Str.isdigit c) eqn:Hd; [|intros H; apply Hacc, H].
    apply IH. intros a [= <-].
    unfold Str.isdigit in Hd. apply andb_prop in Hd as [H1 H2].
    apply N.leb_le in H1.
    assert (0 <= default 0 acc)
      by (destruct acc as [a0|]; cbn; [now apply Hacc|lia]).
    lia.
Qed.

Lemma stoull_range (s : string) (v : Z) :
  Conv.stoull s = Done v -> 0 <= v < 2 ^ 64.
Proof.
  unfold Conv.stoull, Conv.number_prefix.
  destruct (let '(neg, s2) := _ in _) as [[neg m]|] eqn:Hp; [|discriminate].
  destruct (m <=? Int.ULLONG_MAX) eqn:Hm; [|discriminate].
  intros [= <-]. apply Z.leb_le in Hm. unfold Int.ULLONG_MAX in Hm.
  destruct neg.
  - unfold Int.to_size_t. apply Z.mod_pos_bound. lia.
  - assert (0 <= m); [|lia].
    destruct (Conv.skip_space s) as [|c r] eqn:Hs.
    + cbn in Hp. discriminate.
    + destruct (Ascii.eqb c "-") eqn:H1;
        [apply Ascii.eqb_eq in H1; subst c|];
        [|destruct (Ascii.eqb c "+") eqn:H2;
          [apply Ascii.eqb_eq in H2; subst c|]].
      * cbn in Hp. destruct (Conv.digits r None); discriminate.
      * cbn in Hp. destruct (Conv.digits r None) as [m'|] eqn:Hd;
          [|discriminate].
        injection Hp as <-. eapply digits_nonneg; [|exact Hd]. discriminate.
      * assert (Hp' : match Conv.digits (String c r) None with
                      | Some m0 => Some (false, m0)
                      | None => None
                      end = Some (false, m)).
        { revert Hp. clear -H1 H2.
          destruct c as [[] [] [] [] [] [] [] []]; try discriminate;
            intros Hp; exact Hp. }
        destruct (Conv.digits (String c r) None) as [m'|] eqn:Hd;
          [|discriminate].
        injection Hp' as <-. eapply digits_nonneg; [|exact Hd]. discriminate.
Qed.

Lemma to_int64_in (z : Z) : Int.in_int64 (Int.to_int64 z).
Proof.
  unfold Int.in_int64, Int.to_int64, Int.INT64_MIN, Int.INT64_MAX.
  pose proof (Z.mod_pos_bound (z + 2 ^ 63) (2 ^ 64)). lia.
Qed.

Lemma to_size_t_in (z : Z) : 0 <= Int.to_size_t z < 2 ^ 64.
Proof. unfold Int.to_size_t. apply Z.mod_pos_bound. lia. Qed.

Lemma Dbl_to_int64_in (x : float) : Int.in_int64 (Dbl.to_int64 x).
Proof.
  unfold Dbl.to_int64, Int.in_int64.
  destruct (Dbl.trunc x) as [v|].
  - destruct (_ && _) eqn:H.
    + apply andb_prop in H as [H1 H2]. lia.
    + unfold Int.INT64_MIN, Int.INT64_MAX. lia.
  - unfold Int.INT64_MIN, Int.INT64_MAX. lia.
Qed.

Section Ranges.

Context {E : Env}.

Lemma in_range_armed (q : Z) (g : Globals) :
  in_range g -> in_range (armed_globals q g).
Proof.
  intros (H1 & H2 & H3 & H4 & H5 & H6 & H7).
  unfold in_range. cbn. pose proof (to_size_t_in q). tauto.
Qed.

Lemma keeps_range_Start (force : bool) : keeps in_range (Start force).
Proof.
  intros w a w' HQ. rewrite Start_run.
  destruct (int64_div _ _); [|discriminate].
  intros [= _ <-]. now apply in_range_armed.
Qed.

Lemma keeps_range_rearm : keeps in_range rearm.
Proof.
  intros w a w' HQ. rewrite rearm_run.
  destruct (g_triggerArmed (mem w)); [now apply keeps_range_Start|].
  now intros [= _ <-].
Qed.

(** A handler that is the re-arm step on a world whose globals are in
    range. *)
Lemma range_after_rearm (w1 : World) (a : unit) (w' : World) :
  in_range (mem w1) -> rearm w1 = Done (a, w') -> in_range (mem w').
Proof. intros H Hrun. exact (keeps_range_rearm _ _ _ H Hrun). Qed.

Lemma dispatch_keeps_range (line : string) (l : scpi_line) (channelId : Z) :
  keeps in_range (dispatch line l channelId).
Proof.
  unfold dispatch. cbv zeta.
  repeat match goal with
         | |- keeps _ (if ?b then _ else _) => destruct b
         end;
    try (apply keeps_of_preserves;
         unfold handle_query, handle_OFFS, handle_ATTEN, handle_RANGE,
           handle_STOP, Stop, handle_unknown;
         solve [frame]);
    try apply keeps_then_ret.
  - (* ON *)
    intros w a w' HQ. rewrite handle_ON_run. apply range_after_rearm.
    exact HQ.
  - (* OFF *)
    intros w a w' HQ. rewrite handle_OFF_run. apply range_after_rearm.
    exact HQ.
  - (* OFFS *)
    unfold handle_OFFS.
    apply keeps_bind; [apply keeps_of_preserves; solve [frame]|intros ?].
    apply keeps_bind; [apply keeps_of_preserves; solve [frame]|intros ?].
    apply keeps_range_rearm.
  - (* ATTEN *)
    unfold handle_ATTEN.
    apply keeps_bind; [apply keeps_of_preserves; solve [frame]|intros ?].
    apply keeps_bind; [apply keeps_of_preserves; solve [frame]|intros ?].
    apply keeps_range_rearm.
  - (* RANGE *)
    unfold handle_RANGE.
    apply keeps_bind; [apply keeps_of_preserves; solve [frame]|intros ?].
    apply keeps_bind; [apply keeps_of_preserves; solve [frame]|intros ?].
    apply keeps_range_rearm.
  - (* RATE *)
    intros w a w' HQ. rewrite handle_RATE_run.
    destruct (Conv.stoull _) as [r|]; [|discriminate].
    apply range_after_rearm.
    pose proof (Dbl_to_int64_in
                  (PrimFloat.div FS_PER_SECOND
                     (Dbl.of_int64 (Int.to_int64 r)))) as Hi.
    fold (sample_interval_of_rate (Int.to_int64 r)) in Hi.
    destruct HQ as (H1 & H2 & H3 & H4 & H5 & H6 & H7).
    unfold in_range. cbn. tauto.
  - (* DEPTH *)
    intros w a w' HQ. rewrite handle_DEPTH_run.
    destruct (Conv.stoull _) as [d|] eqn:Hd; [|discriminate].
    apply range_after_rearm. apply stoull_range in Hd.
    destruct HQ as (H1 & H2 & H3 & H4 & H5 & H6 & H7).
    unfold in_range. cbn. tauto.
  - (* START, SINGLE *)
    intros w a w' HQ. rewrite handle_START_run.
    destruct (g_triggerArmed (mem w)); [intros [= _ <-]; exact HQ|].
    cbv zeta. destruct (fst (any_channel_on _ _ _)).
    + rewrite Start_run. cbn [mem out].
      destruct (int64_div _ _) as [q|]; [|discriminate].
      intros [= _ <-].
      destruct HQ as (H1 & H2 & H3 & H4 & H5 & H6 & H7).
      unfold in_range. cbn. pose proof (to_size_t_in q). tauto.
    + intros [= _ <-]. exact HQ.
  - (* FORCE *)
    apply keeps_range_Start.
  - (* STOP *)
    unfold handle_STOP, Stop.
    apply keeps_bind; [apply keeps_of_preserves; solve [frame]|intros ?].
    apply keeps_modify. intros g Hg. exact Hg.
  - (* TRIG *)
    unfold handle_TRIG.
    repeat match goal with
           | |- keeps _ (if ?b then _ else _) => destruct b
           end;
      try (apply keeps_of_preserves; unfold handle_TRIG_MODE; solve [frame]).
    + unfold handle_TRIG_EDGE_DIR. cbv zeta.
      apply keeps_bind; [apply keeps_of_preserves; frame|intros _].
      apply keeps_range_rearm.
    + intros w a w' HQ. rewrite handle_TRIG_LEV_run.
      destruct (stod _); [|discriminate]. apply range_after_rearm. exact HQ.
    + intros w a w' HQ. rewrite handle_TRIG_SOU_run. cbv zeta.
      apply range_after_rearm.
      destruct HQ as (H1 & H2 & H3 & H4 & H5 & H6 & H7).
      unfold in_range. cbn. unfold trigger_channel_of_arg.
      pose proof (to_size_t_in
                    (Int.char_value (Str.at_ (arg0 (args l)) 1)
                     - Int.char_value "1")).
      tauto.
    + intros w a w' HQ. rewrite handle_TRIG_DELAY_run.
      destruct (Conv.stoull _) as [d|]; [|discriminate].
      cbv zeta. apply range_after_rearm.
      destruct HQ as (H1 & H2 & H3 & H4 & H5 & H6 & H7).
      unfold in_range. cbn. pose proof (to_int64_in d). tauto.
Qed.

End Ranges.

(** X14. In every world the control thread reaches, every integer global
    holds a value of its C++ type: the memory depths, the trigger channel
    and the sample index are [size_t] values, the sample intervals and the
    trigger delay are [int64_t] values, whatever numbers the client sent
    ([DEPTH -1] stores [2^64 - 1], a delay of [2^64 - 1] is stored as
    [-1]). *)
Theorem globals_stay_in_range (E : Env) (w : World) :
  reachable w -> in_range (mem w).
Proof.
  induction 1 as [|w r w' Hw IH Hreset|w line c w' Hw IH Hline].
  - unfold in_range, Int.in_int64, Int.INT64_MIN, Int.INT64_MAX. cbn. lia.
  - injection Hreset as _ <-. exact IH.
  - rewrite process_line_run in Hline.
    destruct (extract_channel_id _) as [channelId|]; [|discriminate].
    exact (dispatch_keeps_range line _ channelId
             {| mem := mem w; out := out w ++ [EvLog LogTrace line] |}
             _ _ IH Hline).
Qed.

(** The theorem in the world the bench reaches by [DEPTH -1] and
    [TRIG:DELAY 18446744073709551615]. *)
Lemma globals_stay_in_range_witness :
  exists w,
    command_loop (E := Sim.bench 4)
      ["DEPTH -1"; "TRIG:DELAY 18446744073709551615"] initial_world
    = Done (tt, w)
    /\ g_memDepth (mem w) = 2 ^ 64 - 1
    /\ g_triggerDelay (mem w) = -1
    /\ in_range (mem w).
Proof.
  eexists. split; [vm_compute; reflexivity|].
  split; [reflexivity|]. split; [reflexivity|].
  apply (globals_stay_in_range (Sim.bench 4)).
  apply (command_loop_reachable (Sim.bench 4)
           ["DEPTH -1"; "TRIG:DELAY 18446744073709551615"] initial_world);
    [apply reachable_start|].
  vm_compute. reflexivity.
Defined.

(** * Connections *)

Lemma resets_app (a b : list event) :
  resets (a ++ b) = (resets a + resets b)%nat.
Proof.
  induction a as [|e a IH]; [reflexivity|].
  cbn [app resets]. rewrite IH. lia.
Qed.

Lemma resets_none (evs : list event) :
  forallb (fun e => negb (is_reset e)) evs = true -> resets evs = O.
Proof.
  induction evs as [|e evs IH]; [reflexivity|].
  cbn [forallb resets]. intros H. apply andb_prop in H as [He Hr].
  apply negb_true_iff in He. rewrite He, IH by exact Hr. reflexivity.
Qed.

Section Connections.

Context {E : Env}.

Lemma process_line_never_resets (line : string) :
  emits (fun e => negb (is_reset e)) (process_line line).
Proof.
  unfold process_line, dispatch. cbv zeta.
  unfold handle_query, handle_ON, handle_OFF, handle_OFFS, handle_ATTEN,
    handle_RANGE, handle_RATE, handle_DEPTH, handle_START, handle_FORCE,
    handle_STOP, Stop, handle_TRIG, handle_TRIG_MODE, handle_TRIG_EDGE_DIR,
    handle_TRIG_LEV, handle_TRIG_SOU, handle_TRIG_DELAY, handle_unknown,
    rearm, Start, log.
  trace.
Qed.

Lemma command_loop_never_resets (lines : list string) :
  emits (fun e => negb (is_reset e)) (command_loop lines).
Proof.
  induction lines as [|line rest IH]; cbn [command_loop].
  - apply emits_ret.
  - apply emits_bind; [apply process_line_never_resets|].
    intros []; [exact IH|apply emits_ret].
Qed.

Lemma serve_client_run (lines : list string) (w w2 : World) :
  serve_client lines w = Done (tt, w2) ->
  (reachable w -> reachable w2)
  /\ resets (out w2) = (resets (out w) + 2)%nat.
Proof.
  unfold serve_client. unfold bind at 1. unfold call at 1.
  unfold bind at 1.
  destruct (command_loop lines _) as [[[] w1]|f] eqn:Hloop; [|discriminate].
  unfold bind, call, ret. intros [= <-]. split.
  - intros Hw.
    apply (reachable_reset w1 (sdk (out w1) FDwfAnalogInReset)); [|reflexivity].
    refine (command_loop_reachable E lines _ w1 _ Hloop).
    apply (reachable_reset w (sdk (out w) FDwfAnalogInReset)); [exact Hw|].
    reflexivity.
  - destruct (command_loop_never_resets lines _ _ _ Hloop)
      as (evs & Hout & Hevs).
    cbn [out]. rewrite Hout. cbn [out].
    rewrite !resets_app, (resets_none evs Hevs). cbn. lia.
Qed.

End Connections.

(** X15. The accept loop resets the device twice for each client it has
    served, once when the client connects and once when its command loop
    ends, and no command a client sends resets it; the world after any
    number of clients is one the control thread reaches by lines and resets
    alone, so what holds of every reachable world holds between
    connections. *)
Theorem server_resets_twice_per_client (E : Env)
  (clients : list (list string)) (w w2 : World) :
  ScpiServerThread clients w = Done (tt, w2) ->
  (reachable w -> reachable w2)
  /\ resets (out w2) = (resets (out w) + 2 * length clients)%nat.
Proof.
  revert w. induction clients as [|lines rest IH]; intros w.
  - intros [= <-]. split; [auto|]. cbn. lia.
  - cbn [ScpiServerThread]. unfold bind.
    destruct (serve_client lines w) as [[[] w1]|f] eqn:Hc; [|discriminate].
    intros Hrest. destruct (serve_client_run lines w w1 Hc) as [Hr1 Hn1].
    destruct (IH w1 Hrest) as [Hr2 Hn2].
    split; [auto|]. rewrite Hn2, Hn1. cbn [length]. lia.
Qed.

(** The theorem on the bench for two clients: the first arms and leaves,
    the second finds the trigger armed. *)
Lemma server_resets_twice_per_client_witness :
  exists w,
    ScpiServerThread (E := Sim.bench 4)
      [["C1:ON"; "RATE 1000"; "START"; "EXIT"]; ["CHANS?"]] initial_world
    = Done (tt, w)
    /\ g_triggerArmed (mem w) = true
    /\ reachable (E := Sim.bench 4) w
    /\ resets (out w) = 4%nat.
Proof.
  eexists. split; [vm_compute; reflexivity|]. split; [reflexivity|].
  match goal with
  | |- reachable ?w /\ _ =>
      destruct (server_resets_twice_per_client (Sim.bench 4)
                  [["C1:ON"; "RATE 1000"; "START"; "EXIT"]; ["CHANS?"]]
                  initial_world w) as [Hr Hn];
      [vm_compute; reflexivity|]
  end.
  split; [apply Hr, reachable_start|exact Hn].
Defined.

(** * Lines without subject, and the question mark *)

Lemma parse_loop_plain_args (arguments : list string) (st : parse_state) :
  Forall (fun a => Str.all plain_char a = true /\ Str.is_empty a = false)
         arguments ->
  Str.is_empty (p_cmd st) = false ->
  p_reading_cmd st = false ->
  p_tmp st = "" ->
  parse_finish (parse_loop (join_args arguments) st)
  = {| subject := p_subject st; cmd := p_cmd st; query := p_query st;
       args := p_args st ++ arguments |}.
Proof.
  intros Hargs. revert st.
  assert (Hkeep : forall (a : string) (st : parse_state),
    Str.all plain_char a = true ->
    Str.is_empty (p_cmd st) = false ->
    Str.all (kept_in st) a = true).
  { intros a st Ha Hc. apply (all_impl plain_char); [|exact Ha].
    intros c Hf. unfold kept_in. rewrite Hc, !andb_false_r. cbn [negb].
    unfold plain_char, field_char in Hf.
    apply andb_prop in Hf as [Hf Hcol]. apply andb_prop in Hf as [-> ->].
    apply negb_true_iff in Hcol. rewrite Hcol. reflexivity. }
  induction Hargs as [|a rest [Ha Hne] Hrest IH]; intros st Hc Hr Ht.
  - cbn. unfold parse_finish. rewrite Ht. cbn. now rewrite app_nil_r.
  - destruct rest as [|b rest].
    + cbn [join_args]. rewrite parse_loop_kept by (now apply Hkeep).
      unfold parse_finish, with_tmp. cbn. rewrite Ht, append_empty_l'.
      rewrite Hne, Hc. reflexivity.
    + change (join_args (a :: b :: rest))
        with (String.append a (String "," (join_args (b :: rest)))).
      rewrite parse_loop_app, (parse_loop_kept a st) by (now apply Hkeep).
      cbn [parse_loop]. rewrite Ht.
      set (st1 := parse_step _ _).
      assert (Hst1 : st1 = {| p_subject := p_subject st; p_cmd := p_cmd st;
                              p_query := p_query st;
                              p_args := p_args st ++ [a]; p_tmp := "";
                              p_reading_cmd := false |}).
      { unfold st1, parse_step, with_tmp. cbn.
        rewrite append_empty_l', Hne, Hr. reflexivity. }
      rewrite Hst1, IH by (cbn; auto). cbn. now rewrite <- app_assoc.
Qed.

(** X16. A command written without subject as [CMD ARG,ARG...] is read back
    field by field: for a command that is not empty and holds no separator
    and no colon, and arguments that are not empty and hold no comma, no
    question mark and no colon, the parser returns an empty subject, that
    command, no query flag and those arguments in order; the channel number
    of such a line is 0. *)
Theorem ParseScpiLine_plain_command_line (E : Env) (CMD : string)
  (arguments : list string) :
  Str.is_empty CMD = false ->
  Str.all subject_char CMD = true ->
  Forall (fun a => Str.all plain_char a = true /\ Str.is_empty a = false)
         arguments ->
  ParseScpiLine (plain_command_line CMD arguments)
  = {| subject := ""; cmd := CMD; query := false; args := arguments |}
  /\ extract_channel_id
       (subject (ParseScpiLine (plain_command_line CMD arguments)))
     = Done 0.
Proof.
  intros HCne HC Hargs.
  assert (H : ParseScpiLine (plain_command_line CMD arguments)
              = {| subject := ""; cmd := CMD; query := false;
                   args := arguments |}).
  { unfold ParseScpiLine, plain_command_line.
    rewrite parse_loop_app.
    rewrite (parse_loop_kept CMD parse_init).
    2:{ apply (all_impl subject_char); [|exact HC].
        intros c Hc. unfold subject_char in Hc. unfold kept_in; simpl.
        apply andb_prop in Hc as [Hc H4]. apply andb_prop in Hc as [Hc H3].
        apply andb_prop in Hc as [H1 H2].
        rewrite H2, H4. apply negb_true_iff in H1, H3. rewrite H1, H3.
        reflexivity. }
    cbn [parse_loop].
    set (st2 := parse_step _ _).
    assert (Hst2 : st2 = {| p_subject := ""; p_cmd := CMD; p_query := false;
                            p_args := []; p_tmp := "";
                            p_reading_cmd := false |}).
    { unfold st2, parse_step, with_tmp. cbn.
      rewrite append_empty_l', HCne. reflexivity. }
    rewrite Hst2, parse_loop_plain_args by (cbn; auto). reflexivity. }
  split; [exact H|]. rewrite H. reflexivity.
Qed.

(** The theorem at the line [RATE 1000000]. *)
Lemma ParseScpiLine_plain_command_line_witness :
  ParseScpiLine "RATE 1000000"
  = {| subject := ""; cmd := "RATE"; query := false; args := ["1000000"] |}
  /\ extract_channel_id (E := Sim.bench 4)
       (subject (ParseScpiLine "RATE 1000000"))
     = Done 0.
Proof.
  apply (ParseScpiLine_plain_command_line (Sim.bench 4) "RATE" ["1000000"]);
    try reflexivity.
  repeat constructor.
Defined.

Lemma parse_step_mark (st : parse_state) (c : ascii) :
  parse_step (mark_query st) c = mark_query (parse_step st c).
Proof.
  unfold parse_step, mark_query.
  cbn [p_subject p_cmd p_query p_args p_tmp p_reading_cmd].
  destruct (_ && _); [reflexivity|].
  destruct (Ascii.eqb c "?"); [reflexivity|].
  destruct (_ && _); [reflexivity|].
  destruct (Str.is_empty (p_tmp st)); [reflexivity|].
  now destruct (p_reading_cmd st).
Qed.

Lemma parse_loop_mark (s : string) (st : parse_state) :
  parse_loop s (mark_query st) = mark_query (parse_loop s st).
Proof.
  revert st. induction s as [|c s IH]; intros st; [reflexivity|].
  cbn [parse_loop]. now rewrite parse_step_mark, IH.
Qed.

Lemma parse_step_question (st : parse_state) :
  parse_step st "?" = mark_query st.
Proof.
  unfold parse_step, mark_query.
  change (Ascii.eqb "?" ":") with false. reflexivity.
Qed.

(** X17. The question mark is a flag and nothing else: a line with a
    question mark at any place parses to the subject, the command and the
    arguments of the line without that question mark, with the query flag
    set. *)
Theorem ParseScpiLine_question_mark (before after : string) :
  ParseScpiLine (String.append before (String "?" after))
  = as_query (ParseScpiLine (String.append before after)).
Proof.
  unfold ParseScpiLine. rewrite !parse_loop_app. cbn [parse_loop].
  rewrite parse_step_question, parse_loop_mark.
  unfold parse_finish, as_query, mark_query.
  cbn [p_subject p_cmd p_query p_args p_tmp p_reading_cmd].
  destruct (negb (Str.is_empty (p_tmp _)));
    [destruct (negb (Str.is_empty (p_cmd _)))|]; reflexivity.
Qed.

(** * The armed flag and the device *)

Lemma last_configure_app (a b : list event) (cur : bool) :
  last_configure (a ++ b) cur = last_configure b (last_configure a cur).
Proof.
  revert cur. induction a as [|e a IH]; intros cur; [reflexivity|].
  cbn [app last_configure].
  destruct e as [[] r| |]; apply IH.
Qed.

Lemma last_configure_quiet (evs : list event) (cur : bool) :
  forallb (fun e => negb (is_configure e)) evs = true ->
  last_configure evs cur = cur.
Proof.
  revert cur. induction evs as [|e evs IH]; intros cur; [reflexivity|].
  cbn [forallb]. intros H. apply andb_prop in H as [He Hr].
  destruct e as [[] r| |]; cbn [last_configure]; try (now apply IH).
  discriminate He.
Qed.

Section Tracks.

Context {E : Env}.

Lemma tracks_bind {A C : Type} (m : M A) (k : A -> M C) :
  tracks m -> (forall a, tracks (k a)) -> tracks (bind m k).
Proof.
  intros Hm Hk w c w' HQ. unfold bind.
  destruct (m w) as [[a w1]|f] eqn:Hw; [|discriminate].
  apply Hk. exact (Hm _ _ _ HQ Hw).
Qed.

Lemma tracks_of_quiet {A : Type} (m : M A) :
  emits (fun e => negb (is_configure e)) m ->
  preserves g_triggerArmed m ->
  tracks m.
Proof.
  intros He Hp w a w' HQ Hrun. unfold armed_as_configured in *.
  destruct (He _ _ _ Hrun) as (evs & Hout & Hevs).
  rewrite Hout, last_configure_app, (last_configure_quiet _ _ Hevs).
  rewrite (Hp _ _ _ Hrun). exact HQ.
Qed.

Lemma tracks_Start (force : bool) : tracks (Start force).
Proof.
  intros w a w' _. rewrite Start_run.
  destruct (int64_div _ _); [|discriminate].
  intros [= _ <-]. unfold armed_as_configured. cbn [mem out].
  rewrite last_configure_app. reflexivity.
Qed.

Lemma tracks_Stop : tracks Stop.
Proof.
  intros w a w' _. rewrite Stop_run. intros [= _ <-].
  unfold armed_as_configured. cbn [mem out].
  rewrite last_configure_app. reflexivity.
Qed.

Ltac quiet := apply tracks_of_quiet; [solve [trace]|solve [frame]].

Ltac tracks_step :=
  first
    [ apply tracks_Start
    | apply tracks_Stop
    | quiet
    | apply tracks_bind; [|intros ?]
    | match goal with
      | |- tracks (if ?b then _ else _) => destruct b
      | |- tracks (let _ := _ in _) => cbv zeta
      | |- tracks (let '(_, _) := ?x in _) => destruct x
      end ].

Lemma process_line_tracks (line : string) : tracks (process_line line).
Proof.
  unfold process_line, dispatch. cbv zeta.
  apply tracks_bind; [quiet|intros _].
  apply tracks_bind; [quiet|intros channelId].
  repeat match goal with
         | |- tracks (if ?b then _ else _) => destruct b
         end;
    try (apply tracks_bind; [|intros ?; quiet]);
    try quiet;
    unfold handle_query, handle_ON, handle_OFF, handle_OFFS, handle_ATTEN,
      handle_RANGE, handle_RATE, handle_DEPTH, handle_START, handle_FORCE,
      handle_STOP, handle_TRIG, handle_TRIG_MODE, handle_TRIG_EDGE_DIR,
      handle_TRIG_LEV, handle_TRIG_SOU, handle_TRIG_DELAY, handle_unknown,
      rearm;
    repeat tracks_step.
Qed.

End Tracks.

(** X18. In every world the control thread reaches, the armed flag is what
    the server last asked of the device: [g_triggerArmed] is true exactly
    when the most recent [FDwfAnalogInConfigure] in the trace asked the
    device to start, and false when there has been none or the most recent
    one stopped it. The answers of the device play no part: the flag is set
    whether or not the call succeeded. *)
Theorem armed_flag_follows_configure (E : Env) (w : World) :
  reachable w -> last_configure (out w) false = g_triggerArmed (mem w).
Proof.
  induction 1 as [|w r w' Hw IH Hreset|w line c w' Hw IH Hline].
  - reflexivity.
  - injection Hreset as _ <-. cbn [mem out].
    rewrite last_configure_app. exact IH.
  - exact (process_line_tracks line w c w' IH Hline).
Qed.

(** The theorem on the bench whose device refuses every call: after
    [C1:ON], [RATE 1000] and [START] the flag is set, the last call asked
    to start, and the device answered with a failure. *)
Lemma armed_flag_follows_configure_witness :
  exists w,
    command_loop (E := Sim.dead_bench 4)
      ["C1:ON"; "RATE 1000"; "START"] initial_world
    = Done (tt, w)
    /\ g_triggerArmed (mem w) = true
    /\ last_configure (out w) false = true
    /\ In (EvSdk (FDwfAnalogInConfigure true true)
             {| sdk_ok := false; sdk_out1 := 0; sdk_out2 := 0 |}) (out w).
Proof.
  eexists. split; [vm_compute; reflexivity|]. split; [reflexivity|].
  split.
  - etransitivity.
    + apply (armed_flag_follows_configure (Sim.dead_bench 4)).
      apply (command_loop_reachable (Sim.dead_bench 4)
               ["C1:ON"; "RATE 1000"; "START"] initial_world);
        [apply reachable_start|].
      vm_compute. reflexivity.
    + reflexivity.
  - vm_compute. tauto.
Defined.

(** * The sample index while armed *)

Section Index.

Context {E : Env}.

Lemma index_armed_globals (q : Z) (g : Globals) :
  int64_div (g_triggerDelay g) (g_sampleInterval g) = Done q ->
  armed_index_current (armed_globals q g).
Proof. intros Hq _. exists q. split; [exact Hq|reflexivity]. Qed.

Lemma ensures_index_Start (force : bool) :
  ensures armed_index_current (Start force).
Proof.
  intros w a w'. rewrite Start_run.
  destruct (int64_div _ _) as [q|] eqn:Hq; [|discriminate].
  intros [= _ <-]. now apply index_armed_globals.
Qed.

Lemma ensures_index_rearm : ensures armed_index_current rearm.
Proof.
  intros w a w'. rewrite rearm_run.
  destruct (g_triggerArmed (mem w)) eqn:Harmed; [apply ensures_index_Start|].
  intros [= _ <-] H. congruence.
Qed.

Lemma ensures_index_Stop : ensures armed_index_current Stop.
Proof. intros w a w'. rewrite Stop_run. intros [= _ <-] H. discriminate H. Qed.

Lemma keeps_index_START (c : string) :
  keeps armed_index_current (handle_START c).
Proof.
  intros w a w' HQ. rewrite handle_START_run.
  destruct (g_triggerArmed (mem w)) eqn:Harmed.
  { intros [= _ <-]. exact HQ. }
  cbv zeta. destruct (fst (any_channel_on _ _ _)).
  - rewrite Start_run. cbn [mem out].
    destruct (int64_div _ _) as [q|] eqn:Hq; [|discriminate].
    intros [= _ <-] _. exists q. split; [exact Hq|reflexivity].
  - intros [= _ <-] H. cbn in H. congruence.
Qed.

Ltac index_steps :=
  repeat first
    [ apply ensures_index_rearm
    | apply ensures_index_Start
    | apply ensures_index_Stop
    | apply ensures_bind_r; intros ?
    | progress cbv zeta ].

Lemma dispatch_keeps_index (line : string) (l : scpi_line) (channelId : Z) :
  keeps armed_index_current (dispatch line l channelId).
Proof.
  unfold dispatch. cbv zeta.
  repeat match goal with
         | |- keeps _ (if ?b then _ else _) => destruct b
         end;
    try (apply keeps_then_ret);
    try (apply keeps_index_START);
    try (apply keeps_of_preserves; solve [frame]);
    try (apply keeps_of_preserves; unfold handle_query, handle_unknown;
         solve [frame]);
    try (apply keeps_of_ensures;
         unfold handle_ON, handle_OFF, handle_OFFS, handle_ATTEN,
           handle_RANGE, handle_RATE, handle_DEPTH, handle_FORCE,
           handle_STOP;
         solve [index_steps]).
  unfold handle_TRIG.
  repeat match goal with
         | |- keeps _ (if ?b then _ else _) => destruct b
         end;
    try (apply keeps_of_preserves; unfold handle_TRIG_MODE; solve [frame]);
    apply keeps_of_ensures;
    unfold handle_TRIG_EDGE_DIR, handle_TRIG_LEV, handle_TRIG_SOU,
      handle_TRIG_DELAY;
    solve [index_steps].
Qed.

End Index.

(** X19. In every world the control thread reaches with the trigger armed,
    the sample interval is not zero and the sample index is the trigger
    delay divided by the sample interval as they are now: the division that
    arming performs was defined, and every later change of the delay or of
    the rate while armed has gone through it again. *)
Theorem armed_index_is_current (E : Env) (w : World) :
  reachable w ->
  g_triggerArmed (mem w) = true ->
  g_sampleInterval (mem w) <> 0
  /\ g_triggerSampleIndex (mem w)
     = Int.to_size_t
         (Z.quot (g_triggerDelay (mem w)) (g_sampleInterval (mem w))).
Proof.
  intros Hw Harmed.
  assert (H : armed_index_current (mem w)).
  { clear Harmed.
    induction Hw as [|w r w' Hw IH Hreset|w line c w' Hw IH Hline].
    - intros H. discriminate H.
    - injection Hreset as _ <-. exact IH.
    - rewrite process_line_run in Hline.
      destruct (extract_channel_id _) as [channelId|]; [|discriminate].
      exact (dispatch_keeps_index line _ channelId
               {| mem := mem w; out := out w ++ [EvLog LogTrace line] |}
               _ _ IH Hline). }
  destruct (H Harmed) as (q & Hq & Hidx). unfold int64_div in Hq.
  destruct (g_sampleInterval (mem w) =? 0) eqn:Hz; [discriminate|].
  destruct (_ && _); [discriminate|].
  injection Hq as <-. apply Z.eqb_neq in Hz. split; assumption.
Qed.

(** The theorem in the world the bench reaches by [C1:ON], [RATE 1000],
    [START] and [TRIG:DELAY 2500000000000]: armed, interval 10^12 fs, sample
    index 2. *)
Lemma armed_index_is_current_witness :
  exists w,
    command_loop (E := Sim.bench 4)
      ["C1:ON"; "RATE 1000"; "START"; "TRIG:DELAY 2500000000000"]
      initial_world
    = Done (tt, w)
    /\ g_sampleInterval (mem w) = 10 ^ 12
    /\ g_triggerSampleIndex (mem w) = 2
    /\ g_sampleInterval (mem w) <> 0
    /\ g_triggerSampleIndex (mem w)
       = Int.to_size_t
           (Z.quot (g_triggerDelay (mem w)) (g_sampleInterval (mem w))).
Proof.
  eexists. split; [vm_compute; reflexivity|].
  split; [reflexivity|]. split; [reflexivity|].
  apply (armed_index_is_current (Sim.bench 4)); [|reflexivity].
  apply (command_loop_reachable (Sim.bench 4)
           ["C1:ON"; "RATE 1000"; "START"; "TRIG:DELAY 2500000000000"]
           initial_world);
    [apply reachable_start|].
  vm_compute. reflexivity.
Defined.

(** * The dirty flag *)

Section Dirty.

Context {E : Env}.

Ltac dirty_step :=
  first
    [ apply (keeps_of_component g_memDepthChanged (fun b => b = true));
      solve [frame]
    | apply keeps_modify; intros ? ?; reflexivity
    | apply keeps_bind; [|intros ?]
    | match goal with
      | |- keeps _ (if ?b then _ else _) => destruct b
      | |- keeps _ (let '(_, _) := ?x in _) => destruct x
      | |- keeps _ (let _ := _ in _) => cbv zeta
      end ].

Lemma dispatch_keeps_dirty (line : string) (l : scpi_line) (channelId : Z) :
  keeps (fun g => g_memDepthChanged g = true) (dispatch line l channelId).
Proof.
  unfold dispatch. cbv zeta.
  unfold handle_query, handle_ON, handle_OFF, handle_OFFS, handle_ATTEN,
    handle_RANGE, handle_RATE, handle_DEPTH, handle_START, handle_FORCE,
    handle_STOP, Stop, handle_TRIG, handle_TRIG_MODE, handle_TRIG_EDGE_DIR,
    handle_TRIG_LEV, handle_TRIG_SOU, handle_TRIG_DELAY, handle_unknown.
  repeat dirty_step.
Qed.

End Dirty.

(** X20. The control thread never clears the dirty flag: once
    [g_memDepthChanged] is true it is true after every line, whatever the
    line; [ON], [OFF] and [DEPTH] set it and no command resets it. *)
Theorem dirty_flag_is_never_cleared (E : Env) (line : string) (w : World)
  (c : loop_ctl) (w' : World) :
  process_line line w = Done (c, w') ->
  g_memDepthChanged (mem w) = true ->
  g_memDepthChanged (mem w') = true.
Proof.
  rewrite process_line_run.
  destruct (extract_channel_id _) as [channelId|]; [|discriminate].
  intros Hrun HQ.
  exact (dispatch_keeps_dirty line _ channelId
           {| mem := mem w; out := out w ++ [EvLog LogTrace line] |}
           _ _ HQ Hrun).
Qed.

(** The theorem on the bench: the flag set by [DEPTH 1000] is set after
    [STOP]. *)
Lemma dirty_flag_is_never_cleared_witness :
  exists w1 w2,
    process_line (E := Sim.bench 4) "DEPTH 1000" initial_world
    = Done (Continue, w1)
    /\ process_line (E := Sim.bench 4) "STOP" w1 = Done (Continue, w2)
    /\ g_memDepthChanged (mem w2) = true.
Proof.
  do 2 eexists. split; [vm_compute; reflexivity|].
  match goal with
  | |- process_line "STOP" ?w1 = Done (Continue, ?w2) /\ _ =>
      assert (Hrun : process_line (E := Sim.bench 4) "STOP" w1
                     = Done (Continue, w2)) by (vm_compute; reflexivity)
  end.
  split; [exact Hrun|].
  apply (dirty_flag_is_never_cleared (Sim.bench 4) "STOP" _ _ _ Hrun).
  reflexivity.
Defined.
